(** * Loop-scrubbing engine of [src/components/Picker/Picker.tsx]

    A shallow embedding of the scrubbing logic of the picker: the
    offset-wrapping function of [DragScroll], the scroll driver
    ([ScrollTrigger.create]'s [onUpdate]), the [wrap] and [scrollToOffset]
    helpers, the snap policy, the drag driver and [buildSeamlessLoop].

    JavaScript numbers are idealised as rationals ([Q]): every arithmetic
    operation is exact.  An operation whose JavaScript result is [NaN] or
    an infinity (a division or a remainder by zero) has no rational value;
    the model stops there with [NonFinite].  Equalities between numbers
    are stated with [==] ([Qeq]).

    The program's numbers are IEEE doubles, and where it branches on a
    quotient that is a whole number in exact arithmetic a double can fall
    on the other side of the test.  [Module Doubles] embeds the snap path
    and the scroll driver a second time, on the kernel's binary64 numbers,
    to evaluate the code there. *)

From Stdlib Require Import QArith Qround ZArith List Bool Lia Lqa.
From Stdlib Require PrimFloat.
Import ListNotations.

Local Open Scope Q_scope.

(** ** Outcomes of a handler *)

Module Outcome.

(** What running a piece of the program yields in the model. *)
Inductive outcome (A : Type) : Type :=
| Done (a : A)      (* ran to completion with value [a] *)
| NonFinite         (* arithmetic left the rationals: NaN or an infinity *)
| OutOfFuel.        (* the re-entrancy bound of the model was reached *)

Arguments Done {A} a.
Arguments NonFinite {A}.
Arguments OutOfFuel {A}.

Definition bind {A B : Type} (m : outcome A) (k : A -> outcome B) : outcome B :=
  match m with
  | Done a => k a
  | NonFinite => NonFinite
  | OutOfFuel => OutOfFuel
  end.

End Outcome.
Import Outcome.

Notation "'let*' x ':=' m 'in' k" := (bind m (fun x => k))
  (at level 10, x name, m at level 100, k at level 200).

(** ** JavaScript arithmetic on rationals *)

Module Js.

(** [a < b] and [a > b] as the program's [if] tests them. *)
Definition ltb (a b : Q) : bool := negb (Qle_bool b a).
Definition gtb (a b : Q) : bool := ltb b a.
Definition geb (a b : Q) : bool := Qle_bool b a.

(** Rounding toward zero, the integer quotient behind JavaScript's [%]. *)
Definition trunc (x : Q) : Z :=
  if Qle_bool 0 x then Qfloor x else Qceiling x.

(** [a / b]. *)
Definition div (a b : Q) : outcome Q :=
  if Qeq_bool b 0 then NonFinite else Done (a / b).

(** [a % b]: the remainder of the truncated division; it takes the sign
    of the dividend. *)
Definition rem (a b : Q) : outcome Q :=
  if Qeq_bool b 0 then NonFinite
  else Done (a - inject_Z (trunc (a / b)) * b).

(** [Math.floor]. *)
Definition floor (x : Q) : Z := Qfloor x.

(** [Math.round]: the nearest integer, a half rounding toward +infinity. *)
Definition round (x : Q) : Z := Qfloor (x + (1 # 2)).

End Js.

(** ** The [gsap.utils] helpers the picker calls *)

Module GsapUtils.

(** Modelled from the spec: [gsap.utils.wrap(min, max, value)] belongs to
    the gsap package, which is not under [src/].  The spec gives it, for
    [min = 0], as [((value mod range) + range) mod range]; [mod] is
    JavaScript's [%], and the value is shifted by [min] as the three
    argument form requires. *)
Definition wrap (min max value : Q) : outcome Q :=
  let range := max - min in
  let* r := Js.rem (value - min) range in
  let* w := Js.rem (r + range) range in
  Done (w + min).

(** Modelled from the spec: [gsap.utils.clamp(min, max, value)] belongs to
    the gsap package, which is not under [src/]: [value] limited to
    [min] from below and to [max] from above. *)
Definition clamp (min max value : Q) : Q :=
  if Js.ltb value min then min
  else if Js.gtb value max then max
  else value.

(** Modelled from the spec: [gsap.utils.snap(step)] belongs to the gsap
    package, which is not under [src/]: the multiple of [step] nearest to
    [value].  Where two multiples are equally near, the package decides:
    it computes [Math.round(value / step) * step], so a half rounds up. *)
Definition snap (step value : Q) : outcome Q :=
  let* q := Js.div value step in
  Done (inject_Z (Js.round q) * step).

End GsapUtils.

(** ** The cycle builder *)

Module Builder.

(** A tween placed on a timeline: where it starts, how long one pass
    lasts and how many extra passes [repeat] adds. *)
Record Tween : Type := mkTween
  { tw_start : Q; tw_duration : Q; tw_repeat : nat }.

Definition tween_end (t : Tween) : Q :=
  tw_start t + tw_duration t * inject_Z (Z.of_nat (S (tw_repeat t))).

(** The timeline [animateFunc] returns for one element. *)
Record Anim (A : Type) : Type := mkAnim
  { an_element : A; an_tweens : list Tween }.
Arguments mkAnim {A}.
Arguments an_element {A}.
Arguments an_tweens {A}.

Definition Qmax (a b : Q) : Q := if Qle_bool a b then b else a.

(** [anim.duration()]: the latest end among the timeline's tweens. *)
Definition anim_duration {A : Type} (a : Anim A) : Q :=
  fold_left (fun m t => Qmax m (tween_end t)) (an_tweens a) 0.

(** [animateFunc(element)]: a scale-and-fade tween of 0.5s played forth
    and back ([yoyo], [repeat: 1]) and, from time 0, a one second slide. *)
Definition animateFunc {A : Type} (element : A) : Anim A :=
  mkAnim element
    [ mkTween 0 (1 # 2) 1;
      mkTween 0 1 0 ].

(** The looping timeline [buildSeamlessLoop] returns: the raw sequence it
    scrubs, and the one [fromTo] tween that moves the raw sequence's
    playhead.  The [onRepeat] and [onReverseComplete] hooks, which concern
    the loop's own clock, are left out. *)
Record SeamlessLoop (A : Type) : Type := mkLoop
  { rawSequence : list (Q * Anim A);  (* start time, animation *)
    from_time : outcome Q;            (* [time: cycleDuration + dur / 2] *)
    by_time : Q;                      (* [time: "+=" + cycleDuration] *)
    tween_duration : Q;               (* [duration: cycleDuration] *)
    repeat : Z }.
Arguments mkLoop {A}.
Arguments rawSequence {A}.
Arguments from_time {A}.
Arguments by_time {A}.
Arguments tween_duration {A}.
Arguments repeat {A}.

(** [seamlessLoop.duration()]: the loop holds a single tween starting at
    time 0, so its duration is that tween's; a timeline's duration is never
    negative, and a tween given a negative duration leaves it at 0. *)
Definition duration {A : Type} (l : SeamlessLoop A) : Q :=
  if Js.ltb (tween_duration l) 0 then 0 else tween_duration l.

(** [dur || (dur = anim.duration())]: [dur] is assigned while it is
    falsy, that is [undefined] or zero. *)
Definition or_assign (dur : option Q) (d : Q) : option Q :=
  match dur with
  | None => Some d
  | Some q => if Qeq_bool q 0 then Some d else Some q
  end.

(** The body of the [forEach] over the tripled item list, threading the
    index [i], the raw sequence and [dur]. *)
Fixpoint place {A : Type} (animate : A -> Anim A) (items : list A) (spacing : Q)
    (rest : list A) (i : nat) (raw : list (Q * Anim A)) (dur : option Q)
    : list (Q * Anim A) * option Q :=
  match rest with
  | [] => (raw, dur)
  | item :: rest' =>
      let anim := animate (nth (i mod length items) items item) in
      place animate items spacing rest' (S i)
        (raw ++ [(inject_Z (Z.of_nat i) * spacing, anim)])
        (or_assign dur (anim_duration anim))
  end.

Definition buildSeamlessLoop {A : Type} (items : list A) (spacing : Q)
    (animate : A -> Anim A) : SeamlessLoop A :=
  let cycleDuration := spacing * inject_Z (Z.of_nat (length items)) in
  let '(raw, dur) := place animate items spacing (items ++ items ++ items) 0 [] None in
  mkLoop raw
    (match dur with
     | Some d => Done (cycleDuration + d / 2)
     | None => NonFinite          (* [undefined / 2] is NaN *)
     end)
    cycleDuration
    cycleDuration
    (-1).

End Builder.


(** ** The scrubbing engine *)

Module Picker.

Import Builder.

(** The [ScrollTrigger] instance as the handlers see it: [self.scroll()],
    [self.progress], [self.direction] and [self.end]. *)
Record Trigger : Type := mkTrigger
  { t_scroll : Q; t_progress : Q; t_direction : Z; t_end : Q }.

(** The mutable state the handlers share: [scrubber.iteration], the scrub
    tween ([scrub.vars.offset] and how often it was invalidated and
    restarted), the trigger, and the [startOffset] the Draggable records on
    press ([None] while it is still [undefined]). *)
Record State : Type := mkState
  { iteration : Z;
    scrub_offset : Q;
    scrub_restarts : nat;
    trigger : Trigger;
    startOffset : option Q }.

(** What is fixed when the effect runs: [spacing] and the loop built from
    the cards. *)
Record Env (A : Type) : Type := mkEnv
  { spacing : Q; seamlessLoop : SeamlessLoop A }.
Arguments mkEnv {A}.
Arguments spacing {A}.
Arguments seamlessLoop {A}.

Definition set_iteration (i : Z) (st : State) : State :=
  mkState i (scrub_offset st) (scrub_restarts st) (trigger st) (startOffset st).

Definition set_scrub_offset (o : Q) (st : State) : State :=
  mkState (iteration st) o (scrub_restarts st) (trigger st) (startOffset st).

(** [scrub.invalidate().restart()]. *)
Definition scrub_restart (st : State) : State :=
  mkState (iteration st) (scrub_offset st) (S (scrub_restarts st)) (trigger st)
    (startOffset st).

Definition set_trigger (t : Trigger) (st : State) : State :=
  mkState (iteration st) (scrub_offset st) (scrub_restarts st) t (startOffset st).

Definition set_startOffset (o : Q) (st : State) : State :=
  mkState (iteration st) (scrub_offset st) (scrub_restarts st) (trigger st) (Some o).

(** *** [class DragScroll] *)

(** [wrapTime = gsap.utils.wrap(0, seamlessLoop.duration())]. *)
Definition wrapTime {A : Type} (loop : SeamlessLoop A) (offset : Q) : outcome Q :=
  GsapUtils.wrap 0 (duration loop) offset.

(** The scrub tween's [onUpdate]: the time it seeks the loop to when the
    animated [playhead.offset] has the given value. *)
Definition scrub_onUpdate {A : Type} (loop : SeamlessLoop A) (playhead_offset : Q)
    : outcome Q :=
  wrapTime loop playhead_offset.

(** Draggable's [onPress]. *)
Definition onPress (st : State) : State :=
  set_startOffset (scrub_offset st) st.

(** Draggable's [onDrag], with the Draggable's [startX] and [x]. *)
Definition onDrag (startX x : Q) (st : State) : outcome State :=
  match startOffset st with
  | None => NonFinite          (* [undefined + number] is NaN *)
  | Some start =>
      Done (scrub_restart (set_scrub_offset (start + (startX - x) * (1 # 1000)) st))
  end.


(** *** The trigger *)

(** Modelled from the spec: [trigger.scroll(value)] belongs to the gsap
    package, which is not under [src/]: it repositions the scroll-range
    input. *)
Definition trigger_scroll (value : Q) (st : State) : State :=
  let t := trigger st in
  set_trigger (mkTrigger value (t_progress t) (t_direction t) (t_end t)) st.

(** A progress kept within [0, 1]. *)
Definition clip01 (p : Q) : Q :=
  if Js.ltb p 0 then 0 else if Js.gtb p 1 then 1 else p.

(** Modelled from the spec: [trigger.update()] belongs to the gsap package,
    which is not under [src/]: it forces the re-derivation of the progress
    [scroll / end] (the trigger starts at 0), kept within [0, 1].  The
    trigger's [onUpdate] is called "if there's a change", in the words of
    the comment above [scrollToOffset], and [direction] is the sign of that
    change. *)
Definition trigger_update (onUpdate : State -> outcome State) (st : State)
    : outcome State :=
  let t := trigger st in
  let* p := Js.div (t_scroll t) (t_end t) in
  let clipped := clip01 p in
  if Qeq_bool clipped (t_progress t) then Done st
  else
    let direction := if Js.gtb clipped (t_progress t) then 1%Z else (-1)%Z in
    onUpdate (set_trigger (mkTrigger (t_scroll t) clipped direction (t_end t)) st).

(** [function wrap(iterationDelta, scrollTo)].  Its [trigger.update()] may
    re-enter the trigger's [onUpdate], which is passed in. *)
Definition wrap (onUpdate : State -> outcome State) (iterationDelta : Z)
    (scrollTo : Q) (st : State) : outcome State :=
  let st1 := set_iteration (iteration st + iterationDelta) st in
  let st2 := trigger_scroll scrollTo st1 in
  trigger_update onUpdate st2.

(** The last branch of the trigger's [onUpdate]: the scrub tween is aimed
    at [(iteration + self.progress) * seamlessLoop.duration()], invalidated
    and restarted. *)
Definition scrub_to_progress {A : Type} (env : Env A) (st : State) : State :=
  scrub_restart
    (set_scrub_offset
       ((inject_Z (iteration st) + t_progress (trigger st))
        * duration (seamlessLoop env)) st).

(** The trigger's [onUpdate(self)].  [fuel] bounds the re-entrancy through
    [wrap]. *)
Fixpoint onUpdate {A : Type} (fuel : nat) (env : Env A) (st : State)
    : outcome State :=
  match fuel with
  | O => OutOfFuel
  | S fuel' =>
      let self := trigger st in
      let scroll := t_scroll self in
      if Js.gtb scroll (t_end self - 1) then
        wrap (onUpdate fuel' env) 1 1 st
      else if Js.ltb scroll 1 && (t_direction self <? 0)%Z then
        wrap (onUpdate fuel' env) (-1) (t_end self - 1) st
      else
        Done (scrub_to_progress env st)
  end.

(** [snapTime = gsap.utils.snap(spacing)]. *)
Definition snapTime {A : Type} (env : Env A) (value : Q) : outcome Q :=
  GsapUtils.snap (spacing env) value.

(** [progressToScroll]. *)
Definition progressToScroll (t : Trigger) (progress : Q) : outcome Q :=
  let* w := GsapUtils.wrap 0 1 progress in
  Done (GsapUtils.clamp 1 (t_end t - 1) (w * t_end t)).

(** The progress [scrollToOffset] recomputes from an offset, as an exact
    quotient; [Doubles.offsetToProgress] is the same expression in doubles,
    which can differ from it in the last place. *)
Definition offsetToProgress {A : Type} (env : Env A) (iter : Z) (offset : Q)
    : outcome Q :=
  Js.div (offset - duration (seamlessLoop env) * inject_Z iter)
         (duration (seamlessLoop env)).

(** [function scrollToOffset(offset)]. *)
Definition scrollToOffset {A : Type} (fuel : nat) (env : Env A) (offset : Q)
    (st : State) : outcome State :=
  let* snappedTime := snapTime env offset in
  let* progress := offsetToProgress env (iteration st) snappedTime in
  let* scroll := progressToScroll (trigger st) progress in
  if Js.geb progress 1 || Js.ltb progress 0 then
    wrap (onUpdate fuel env) (Js.floor progress) scroll st
  else
    Done (trigger_scroll scroll st).

(** The [scrollEnd] listener. *)
Definition scrollEnd {A : Type} (fuel : nat) (env : Env A) (st : State)
    : outcome State :=
  scrollToOffset fuel env (scrub_offset st) st.

(** The click listeners of [.next] and [.prev]; the sum and the difference
    are exact here. *)
Definition next {A : Type} (fuel : nat) (env : Env A) (st : State) : outcome State :=
  scrollToOffset fuel env (scrub_offset st + spacing env) st.

Definition prev {A : Type} (fuel : nat) (env : Env A) (st : State) : outcome State :=
  scrollToOffset fuel env (scrub_offset st - spacing env) st.

(** The page's scroll position changed and the trigger takes notice: what
    follows a [trigger.scroll(value)] one tick later. *)
Definition scroll_event {A : Type} (fuel : nat) (env : Env A) (st : State)
    : outcome State :=
  trigger_update (onUpdate fuel env) st.

(** *** The picker as the component sets it up *)

(** The 31 [li] of the markup, by index. *)
Definition cards : list nat := seq 0 31.

Definition picker_spacing : Q := 1 # 10.

Definition picker_env : Env nat :=
  mkEnv picker_spacing (buildSeamlessLoop cards picker_spacing animateFunc).

(** [end: "+=3000"] from [start: 0]. *)
Definition picker_end : Q := 3000.

(** A state at iteration 0, the tween aimed at offset 0 and the page at
    [scroll]; [picker_state 0] is the state right after set-up. *)
Definition picker_state (scroll : Q) : State :=
  mkState 0 0 0 (mkTrigger scroll (scroll / picker_end) 1 picker_end) None.

End Picker.

(** ** The snap path and the scroll driver in double precision *)

Module Doubles.

Import PrimFloat.
Local Open Scope float_scope.

(** From 2^52 on every double is a whole number. *)
Definition two52 : float := 4503599627370496.

(** [Math.floor]: below 2^52 in size, adding and taking away 2^52 rounds to
    a nearest whole number, which is lowered by one if it came out above. *)
Definition floor (x : float) : float :=
  if abs x <? two52 then
    let r := if 0 <=? x then (x + two52) - two52 else (x - two52) + two52 in
    if x <? r then r - 1 else r
  else x.

(** [Math.round]: the nearest whole number, a half rounding toward
    +infinity ([x - floor(x)] is exact). *)
Definition round (x : float) : float :=
  let r := floor x in
  if 1 / 2 <=? x - r then r + 1 else r.

(** [x % 1]: [x] less its whole part, exact in doubles. *)
Definition rem1 (x : float) : float :=
  x - (if x <? 0 then - floor (- x) else floor x).

(** Modelled from the spec: [gsap.utils.wrap(0, 1, value)], as
    [GsapUtils.wrap] with a range of 1. *)
Definition wrap01 (value : float) : float :=
  rem1 (rem1 (value - 0) + 1) + 0.

(** Modelled from the spec: [gsap.utils.clamp(min, max, value)], as
    [GsapUtils.clamp]. *)
Definition clamp (min max value : float) : float :=
  if value <? min then min
  else if max <? value then max
  else value.

(** Modelled from the spec: [gsap.utils.snap(step)], as [GsapUtils.snap]. *)
Definition snap (step value : float) : float :=
  round (value / step) * step.

Record Trigger : Type := mkTrigger
  { t_scroll : float; t_progress : float; t_direction : Z; t_end : float }.

(** [scrubber.iteration], [scrub.vars.offset], the number of restarts of
    the scrub tween, and the trigger. *)
Record State : Type := mkState
  { iteration : float;
    scrub_offset : float;
    scrub_restarts : nat;
    trigger : Trigger }.

(** [spacing] and [seamlessLoop.duration()]. *)
Record Env : Type := mkEnv { spacing : float; duration : float }.

(** Modelled from the spec: [trigger.scroll(value)], as
    [Picker.trigger_scroll]. *)
Definition trigger_scroll (value : float) (st : State) : State :=
  let t := trigger st in
  mkState (iteration st) (scrub_offset st) (scrub_restarts st)
    (mkTrigger value (t_progress t) (t_direction t) (t_end t)).

(** Modelled from the spec: [trigger.update()], as [Picker.trigger_update]. *)
Definition trigger_update (onUpdate : State -> option State) (st : State)
    : option State :=
  let t := trigger st in
  let p := t_scroll t / t_end t in
  let clipped := if p <? 0 then 0 else if 1 <? p then 1 else p in
  if clipped =? t_progress t then Some st
  else
    let direction := if t_progress t <? clipped then 1%Z else (-1)%Z in
    onUpdate
      (mkState (iteration st) (scrub_offset st) (scrub_restarts st)
         (mkTrigger (t_scroll t) clipped direction (t_end t))).

(** [function wrap(iterationDelta, scrollTo)]. *)
Definition wrap (onUpdate : State -> option State) (iterationDelta scrollTo : float)
    (st : State) : option State :=
  let st1 :=
    mkState (iteration st + iterationDelta) (scrub_offset st) (scrub_restarts st)
      (trigger st) in
  trigger_update onUpdate (trigger_scroll scrollTo st1).

(** The trigger's [onUpdate(self)]; [None] when the bound on the
    re-entrancy is reached. *)
Fixpoint onUpdate (fuel : nat) (env : Env) (st : State) : option State :=
  match fuel with
  | O => None
  | S fuel' =>
      let self := trigger st in
      let scroll := t_scroll self in
      if t_end self - 1 <? scroll then
        wrap (onUpdate fuel' env) 1 1 st
      else if (scroll <? 1) && (t_direction self <? 0)%Z then
        wrap (onUpdate fuel' env) (-1) (t_end self - 1) st
      else
        Some (mkState (iteration st)
                ((iteration st + t_progress self) * duration env)
                (S (scrub_restarts st)) (trigger st))
  end.

(** [snapTime = gsap.utils.snap(spacing)]. *)
Definition snapTime (env : Env) (value : float) : float :=
  snap (spacing env) value.

(** [progressToScroll]. *)
Definition progressToScroll (t : Trigger) (progress : float) : float :=
  clamp 1 (t_end t - 1) (wrap01 progress * t_end t).

(** The progress [scrollToOffset] recomputes from an offset. *)
Definition offsetToProgress (env : Env) (iter offset : float) : float :=
  (offset - duration env * iter) / duration env.

(** [function scrollToOffset(offset)]. *)
Definition scrollToOffset (fuel : nat) (env : Env) (offset : float) (st : State)
    : option State :=
  let snappedTime := snapTime env offset in
  let progress := offsetToProgress env (iteration st) snappedTime in
  let scroll := progressToScroll (trigger st) progress in
  if (1 <=? progress) || (progress <? 0) then
    wrap (onUpdate fuel env) (floor progress) scroll st
  else
    Some (trigger_scroll scroll st).

(** The [scrollEnd] listener. *)
Definition scrollEnd (fuel : nat) (env : Env) (st : State) : option State :=
  scrollToOffset fuel env (scrub_offset st) st.

(** The trigger taking notice of a new scroll position. *)
Definition scroll_event (fuel : nat) (env : Env) (st : State) : option State :=
  trigger_update (onUpdate fuel env) st.

(** The picker: [spacing = 0.1] and a loop of [cycleDuration = spacing *
    items.length], 31 items. *)
Definition picker_env : Env := mkEnv (1 / 10) (1 / 10 * 31).

(** The engine at iteration [iter] once the scroll driver has followed the
    page to [scroll] (of [end = 3000]). *)
Definition picker_at (iter scroll : float) : State :=
  mkState iter ((iter + scroll / 3000) * duration picker_env) 1
    (mkTrigger scroll (scroll / 3000) 1 3000).

End Doubles.

(** * Properties *)

Import Builder Picker.

(** Closed facts about concrete rationals and states are decided by
    evaluation. *)
Ltac concrete := vm_compute; first [reflexivity | discriminate | lia].

(** ** Arithmetic *)

Section Arithmetic.

Lemma ltb_lt (a b : Q) : Js.ltb a b = true <-> a < b.
Proof.
  unfold Js.ltb. rewrite negb_true_iff.
  destruct (Qle_bool b a) eqn:E.
  - apply Qle_bool_iff in E. split; [discriminate | lra].
  - split; [intros _ | reflexivity].
    destruct (Qlt_le_dec a b) as [H | H]; [exact H |].
    apply Qle_bool_iff in H. congruence.
Qed.

Lemma ltb_ge (a b : Q) : Js.ltb a b = false <-> b <= a.
Proof.
  unfold Js.ltb. rewrite negb_false_iff. apply Qle_bool_iff.
Qed.

Lemma gtb_gt (a b : Q) : Js.gtb a b = true <-> b < a.
Proof. apply ltb_lt. Qed.

Lemma gtb_le (a b : Q) : Js.gtb a b = false <-> a <= b.
Proof. apply ltb_ge. Qed.

Lemma geb_ge (a b : Q) : Js.geb a b = true <-> b <= a.
Proof. apply Qle_bool_iff. Qed.

Lemma geb_lt (a b : Q) : Js.geb a b = false <-> a < b.
Proof.
  unfold Js.geb. split; intro H.
  - destruct (Qlt_le_dec a b) as [L | L]; [exact L |].
    apply Qle_bool_iff in L. congruence.
  - destruct (Qle_bool b a) eqn:E; [| reflexivity].
    apply Qle_bool_iff in E. lra.
Qed.

Lemma Qeq_bool_false (a b : Q) : ~ a == b -> Qeq_bool a b = false.
Proof.
  intro H. destruct (Qeq_bool a b) eqn:E; [| reflexivity].
  apply Qeq_bool_iff in E. contradiction.
Qed.

Lemma div_nonzero (a b : Q) : ~ b == 0 -> Js.div a b = Done (a / b).
Proof. intro H. unfold Js.div. now rewrite Qeq_bool_false. Qed.

Lemma rem_nonzero (a b : Q) :
  ~ b == 0 -> Js.rem a b = Done (a - inject_Z (Js.trunc (a / b)) * b).
Proof. intro H. unfold Js.rem. now rewrite Qeq_bool_false. Qed.

(** Truncation drops the fractional part toward zero. *)
Lemma trunc_nonneg (x : Q) :
  0 <= x -> inject_Z (Js.trunc x) <= x /\ x < inject_Z (Js.trunc x) + 1.
Proof.
  intro H. unfold Js.trunc.
  apply Qle_bool_iff in H. rewrite H.
  pose proof (Qfloor_le x). pose proof (Qlt_floor x) as L.
  rewrite inject_Z_plus in L. split; [assumption | exact L].
Qed.

Lemma trunc_neg (x : Q) :
  x < 0 -> x <= inject_Z (Js.trunc x) /\ inject_Z (Js.trunc x) < x + 1.
Proof.
  intro H. unfold Js.trunc.
  destruct (Qle_bool 0 x) eqn:E.
  - apply Qle_bool_iff in E. lra.
  - pose proof (Qle_ceiling x). pose proof (Qceiling_lt x) as L.
    unfold Z.sub in L. rewrite inject_Z_plus in L.
    rewrite inject_Z_opp in L. change (inject_Z 1) with 1 in L.
    split; [assumption | lra].
Qed.

Lemma quot_mult (a d : Q) : ~ d == 0 -> a == (a / d) * d.
Proof. intro H. field. exact H. Qed.

Lemma scale_bounds (u d : Q) :
  0 < d ->
  (0 <= u -> 0 <= u * d) /\ (u < 1 -> u * d < d) /\ (-1 < u -> - d < u * d).
Proof. intro Hd. repeat split; intro H; nra. Qed.

(** The remainder by a positive divisor is smaller than it in absolute
    value, and is not negative when the dividend is not. *)
Lemma rem_bounds (a d : Q) :
  0 < d ->
  exists r, Js.rem a d = Done r /\ r == a - inject_Z (Js.trunc (a / d)) * d /\
            - d < r /\ r < d /\ (0 <= a -> 0 <= r).
Proof.
  intro Hd.
  assert (Hnz : ~ d == 0) by lra.
  rewrite (rem_nonzero a d Hnz). eexists. split; [reflexivity |].
  split; [reflexivity |].
  pose proof (quot_mult a d Hnz) as Ha.
  set (x := a / d) in *.
  destruct (Qlt_le_dec x 0) as [Hx | Hx].
  - destruct (trunc_neg x Hx) as [H1 H2].
    set (t := inject_Z (Js.trunc x)) in *.
    assert (E : a - t * d == (x - t) * d) by (rewrite Ha at 1; ring).
    rewrite E. repeat split; try intro; nra.
  - destruct (trunc_nonneg x Hx) as [H1 H2].
    set (t := inject_Z (Js.trunc x)) in *.
    assert (E : a - t * d == (x - t) * d) by (rewrite Ha at 1; ring).
    rewrite E.
    destruct (scale_bounds (x - t) d Hd) as (B1 & B2 & B3).
    repeat split; [apply B3 | apply B2 | intros _; apply B1]; lra.
Qed.

(** [Qfloor y] is the one integer [m] with [m <= y < m + 1]. *)
Lemma floor_unique (m : Z) (y : Q) :
  inject_Z m <= y -> y < inject_Z m + 1 -> Qfloor y = m.
Proof.
  intros Hlo Hhi.
  apply Z.le_antisymm.
  - assert (L : inject_Z (Qfloor y) < inject_Z (m + 1)).
    { rewrite inject_Z_plus. change (inject_Z 1) with 1.
      pose proof (Qfloor_le y). lra. }
    rewrite <- Zlt_Qlt in L. lia.
  - rewrite <- (Qfloor_Z m) at 1. now apply Qfloor_resp_le.
Qed.

Lemma floor_bounds (y : Q) :
  inject_Z (Qfloor y) <= y /\ y < inject_Z (Qfloor y) + 1.
Proof.
  split; [apply Qfloor_le |].
  pose proof (Qlt_floor y) as L. rewrite inject_Z_plus in L. exact L.
Qed.

Lemma floor_shift (y : Q) (n : Z) : Qfloor (y + inject_Z n) = (Qfloor y + n)%Z.
Proof.
  destruct (floor_bounds y) as [H1 H2].
  apply floor_unique; rewrite inject_Z_plus; lra.
Qed.

Lemma trunc_floor (x : Q) : 0 <= x -> Js.trunc x = Qfloor x.
Proof. intro H. unfold Js.trunc. apply Qle_bool_iff in H. now rewrite H. Qed.

Lemma quot_nonneg (a d : Q) : 0 < d -> 0 <= a -> 0 <= a / d.
Proof.
  intros Hd Ha. unfold Qdiv. apply Qmult_le_0_compat; [exact Ha |].
  apply Qlt_le_weak, Qinv_lt_0_compat, Hd.
Qed.

(** For a dividend that is not negative, [%] is the mathematical modulo. *)
Lemma rem_floor (a d : Q) :
  0 < d -> 0 <= a ->
  Js.rem a d = Done (a - inject_Z (Qfloor (a / d)) * d).
Proof.
  intros Hd Ha. rewrite rem_nonzero by lra.
  now rewrite trunc_floor by (apply quot_nonneg; assumption).
Qed.

(** [gsap.utils.wrap(0, d, x)] is [x] modulo [d]: [x - floor(x / d) * d]. *)
Lemma wrap_floor (d x : Q) :
  0 < d ->
  exists w, GsapUtils.wrap 0 d x = Done w /\
            w == x - inject_Z (Qfloor (x / d)) * d.
Proof.
  intro Hd. unfold GsapUtils.wrap.
  assert (Hd0 : 0 < d - 0) by lra.
  destruct (rem_bounds (x - 0) (d - 0) Hd0) as (r & Er & Hr & Hlo & Hhi & _).
  rewrite Er. cbn [bind].
  rewrite rem_floor by lra. cbn [bind].
  eexists. split; [reflexivity |].
  set (t := Js.trunc ((x - 0) / (d - 0))) in *.
  assert (Eq : (r + (d - 0)) / (d - 0) == x / d + inject_Z (1 - t)).
  { unfold Z.sub. rewrite inject_Z_plus, inject_Z_opp. rewrite Hr.
    change (inject_Z 1) with 1. field. lra. }
  rewrite Eq, floor_shift, inject_Z_plus.
  unfold Z.sub. rewrite inject_Z_plus, inject_Z_opp. rewrite Hr.
  change (inject_Z 1) with 1. ring.
Qed.

(** The wrapped value lies in [[0, d)]. *)
Lemma wrap_range (d x w : Q) :
  0 < d -> GsapUtils.wrap 0 d x = Done w -> 0 <= w /\ w < d.
Proof.
  intros Hd E.
  destruct (wrap_floor d x Hd) as (w' & E' & Hw).
  rewrite E in E'. injection E' as <-.
  destruct (floor_bounds (x / d)) as [H1 H2].
  pose proof (quot_mult x d ltac:(lra)) as Hx.
  set (q := x / d) in *. set (f := inject_Z (Qfloor q)) in *.
  assert (Ew : w == (q - f) * d) by (rewrite Hw; rewrite Hx at 1; ring).
  destruct (scale_bounds (q - f) d Hd) as (B1 & B2 & _).
  rewrite Ew. split; [apply B1 | apply B2]; lra.
Qed.

End Arithmetic.

(** ** The offset-wrapping function *)

Section Wrapping.

Lemma trunc_comp (x y : Q) : x == y -> Js.trunc x = Js.trunc y.
Proof.
  intro E. unfold Js.trunc.
  rewrite (Qleb_comp 0 0 (Qeq_refl 0) x y E).
  now rewrite (Qfloor_comp x y E), (Qceiling_comp x y E).
Qed.

(** [%] respects the equality of rationals. *)
Lemma rem_comp (a a' b b' : Q) :
  a == a' -> b == b' -> ~ b == 0 ->
  exists r r', Js.rem a b = Done r /\ Js.rem a' b' = Done r' /\ r == r'.
Proof.
  intros Ea Eb Hb.
  assert (Hb' : ~ b' == 0) by (now rewrite <- Eb).
  rewrite (rem_nonzero a b Hb), (rem_nonzero a' b' Hb').
  do 2 eexists. repeat split.
  assert (Eq : a / b == a' / b') by (now rewrite Ea, Eb).
  rewrite (trunc_comp _ _ Eq). now rewrite Ea, Eb.
Qed.

(** C1: for every offset, negative ones included, the offset-wrapping
    function [wrapTime] returns [((offset % d) + d) % d], where [d] is the
    duration of the seamless loop, [%] is JavaScript's remainder, and the
    result [t] satisfies [0 <= t < d].  The duration is positive, as that
    of the picker's loop is. *)
Theorem wrapTime_double_rem_in_range {A : Type} (loop : SeamlessLoop A) (offset : Q) :
  0 < duration loop ->
  exists r s t,
    Js.rem offset (duration loop) = Done r /\
    Js.rem (r + duration loop) (duration loop) = Done s /\
    wrapTime loop offset = Done t /\
    t == s /\ 0 <= t /\ t < duration loop.
Proof.
  intro Hd. set (d := duration loop) in *.
  destruct (rem_bounds offset d Hd) as (r & Er & _).
  destruct (rem_bounds (r + d) d Hd) as (s & Es & _).
  destruct (wrap_floor d offset Hd) as (t & Et & _).
  exists r, s, t. repeat split; try assumption.
  - unfold wrapTime in *. fold d.
    revert Et. unfold GsapUtils.wrap.
    destruct (rem_comp (offset - 0) offset (d - 0) d) as (r1 & r1' & E1 & E1' & Q1);
      [ring | ring | lra |].
    rewrite E1. cbn [bind].
    rewrite Er in E1'. injection E1' as <-.
    destruct (rem_comp (r1 + (d - 0)) (r + d) (d - 0) d) as (r2 & r2' & E2 & E2' & Q2);
      [rewrite Q1; ring | ring | lra |].
    rewrite E2. cbn [bind].
    rewrite Es in E2'. injection E2' as <-.
    intro Et. injection Et as <-. rewrite Q2. ring.
  - exact (proj1 (wrap_range d offset t Hd Et)).
  - exact (proj2 (wrap_range d offset t Hd Et)).
Qed.

Lemma wrapTime_double_rem_in_range_witness :
  0 < duration (seamlessLoop picker_env) /\
  exists r s t,
    Js.rem (- (1 # 2)) (duration (seamlessLoop picker_env)) = Done r /\
    Js.rem (r + duration (seamlessLoop picker_env))
           (duration (seamlessLoop picker_env)) = Done s /\
    wrapTime (seamlessLoop picker_env) (- (1 # 2)) = Done t /\
    t == s /\ 0 <= t /\ t < duration (seamlessLoop picker_env).
Proof.
  split.
  - reflexivity.
  - apply (wrapTime_double_rem_in_range (seamlessLoop picker_env) (- (1 # 2))).
    reflexivity.
Defined.

End Wrapping.

(** ** The trigger and the scroll driver *)

Section Driver.

Context {A : Type}.
Variable env : Env A.

Lemma quot_unit_interval (s e : Q) :
  1 <= s -> s <= e - 1 -> 0 < s / e /\ s / e < 1.
Proof.
  intros H1 H2. split.
  - apply Qlt_shift_div_l; lra.
  - apply Qlt_shift_div_r; lra.
Qed.

Lemma clip01_id (p : Q) : 0 <= p -> p <= 1 -> clip01 p = p.
Proof.
  intros H0 H1. unfold clip01.
  rewrite (proj2 (ltb_ge p 0) H0). now rewrite (proj2 (gtb_le p 1) H1).
Qed.

(** Away from the two boundary buffers [onUpdate] takes its last branch. *)
Lemma onUpdate_in_zone (fuel : nat) (st : State) :
  1 <= t_scroll (trigger st) ->
  t_scroll (trigger st) <= t_end (trigger st) - 1 ->
  onUpdate (S fuel) env st = Done (scrub_to_progress env st).
Proof.
  intros H1 H2. cbn [onUpdate].
  rewrite (proj2 (gtb_le _ _) H2).
  now rewrite (proj2 (ltb_ge _ _) H1).
Qed.

(** What [trigger.update()] does when the scroll position is away from the
    boundary buffers: nothing if the progress is unchanged, and otherwise
    one run of the last branch of [onUpdate]. *)
Lemma update_in_zone (fuel : nat) (st : State) :
  let t := trigger st in
  1 <= t_scroll t -> t_scroll t <= t_end t - 1 ->
  trigger_update (onUpdate (S fuel) env) st =
    Done (if Qeq_bool (t_scroll t / t_end t) (t_progress t) then st
          else scrub_to_progress env
                 (set_trigger
                    (mkTrigger (t_scroll t) (t_scroll t / t_end t)
                       (if Js.gtb (t_scroll t / t_end t) (t_progress t)
                        then 1%Z else (-1)%Z)
                       (t_end t)) st)).
Proof.
  intros t H1 H2. unfold trigger_update. fold t.
  rewrite div_nonzero by lra. cbn [bind].
  destruct (quot_unit_interval _ _ H1 H2) as [P0 P1].
  rewrite clip01_id by lra.
  destruct (Qeq_bool (t_scroll t / t_end t) (t_progress t)); [reflexivity |].
  now apply onUpdate_in_zone.
Qed.

(** C3: on a scroll update, if [scroll > end - 1] the handler runs the wrap
    operation with iteration delta +1 and scroll target 1; otherwise, if
    [scroll < 1] and [direction < 0], it runs the wrap operation with delta
    -1 and scroll target [end - 1]; otherwise it sets the tween's target
    offset to [(iteration + progress) * duration] and invalidates and
    restarts the tween, leaving iteration and trigger as they are.  The
    progress a trigger update hands to the handler is [scroll / end]. *)
Theorem onUpdate_three_branches (fuel : nat) (st : State) :
  let self := trigger st in
  (t_end self - 1 < t_scroll self ->
     onUpdate (S fuel) env st = wrap (onUpdate fuel env) 1 1 st) /\
  (t_scroll self <= t_end self - 1 ->
   t_scroll self < 1 -> (t_direction self < 0)%Z ->
     onUpdate (S fuel) env st
     = wrap (onUpdate fuel env) (-1) (t_end self - 1) st) /\
  (t_scroll self <= t_end self - 1 ->
   1 <= t_scroll self \/ (0 <= t_direction self)%Z ->
     exists st',
       onUpdate (S fuel) env st = Done st' /\
       scrub_offset st'
       = (inject_Z (iteration st) + t_progress self) * duration (seamlessLoop env) /\
       scrub_restarts st' = S (scrub_restarts st) /\
       iteration st' = iteration st /\
       trigger st' = trigger st) /\
  (0 < t_end self -> 0 <= t_scroll self -> t_scroll self <= t_end self ->
     forall handler,
       (trigger_update handler st = Done st /\
        t_progress self == t_scroll self / t_end self) \/
       exists st1,
         trigger_update handler st = handler st1 /\
         t_progress (trigger st1) = t_scroll self / t_end self /\
         t_scroll (trigger st1) = t_scroll self /\
         t_end (trigger st1) = t_end self /\
         iteration st1 = iteration st).
Proof.
  intro self. repeat split.
  - intro H. cbn [onUpdate]. fold self.
    now rewrite (proj2 (gtb_gt _ _) H).
  - intros H1 H2 H3. cbn [onUpdate]. fold self.
    rewrite (proj2 (gtb_le _ _) H1), (proj2 (ltb_lt _ _) H2).
    now rewrite (proj2 (Z.ltb_lt _ _) H3).
  - intros H1 H2. exists (scrub_to_progress env st).
    split; [| repeat split].
    cbn [onUpdate]. fold self.
    rewrite (proj2 (gtb_le _ _) H1).
    destruct H2 as [H2 | H2].
    + now rewrite (proj2 (ltb_ge _ _) H2).
    + rewrite (proj2 (Z.ltb_ge _ _) H2). now rewrite andb_false_r.
  - intros He H0 H1 handler. unfold trigger_update. fold self.
    rewrite div_nonzero by lra. cbn [bind].
    assert (P0 : 0 <= t_scroll self / t_end self)
      by (apply Qle_shift_div_l; lra).
    assert (P1 : t_scroll self / t_end self <= 1)
      by (apply Qle_shift_div_r; lra).
    rewrite clip01_id by assumption.
    destruct (Qeq_bool (t_scroll self / t_end self) (t_progress self)) eqn:E.
    + left. split; [reflexivity |]. apply Qeq_bool_iff in E. now symmetry.
    + right. eexists. split; [reflexivity |]. repeat split.
Qed.

End Driver.

Lemma onUpdate_three_branches_witness :
  (onUpdate 2 picker_env (picker_state (5999 # 2))
   = wrap (onUpdate 1 picker_env) 1 1 (picker_state (5999 # 2))) /\
  (onUpdate 2 picker_env (mkState 0 0 0 (mkTrigger (1 # 2) (1 # 6000) (-1) 3000) None)
   = wrap (onUpdate 1 picker_env) (-1) (3000 - 1)
       (mkState 0 0 0 (mkTrigger (1 # 2) (1 # 6000) (-1) 3000) None)) /\
  (exists st',
      onUpdate 2 picker_env (picker_state 1500) = Done st' /\
      scrub_offset st'
      = (inject_Z 0 + (1500 / picker_end)) * duration (seamlessLoop picker_env) /\
      scrub_restarts st' = 1%nat /\
      iteration st' = 0%Z /\
      trigger st' = trigger (picker_state 1500)) /\
  (forall handler,
      (trigger_update handler (picker_state 1500) = Done (picker_state 1500) /\
       t_progress (trigger (picker_state 1500)) == 1500 / 3000) \/
      exists st1,
        trigger_update handler (picker_state 1500) = handler st1 /\
        t_progress (trigger st1) = 1500 / 3000 /\
        t_scroll (trigger st1) = 1500 /\
        t_end (trigger st1) = 3000 /\
        iteration st1 = 0%Z).
Proof.
  split; [| split; [| split]].
  - apply (proj1 (onUpdate_three_branches picker_env 1 (picker_state (5999 # 2)))).
    concrete.
  - apply (proj1 (proj2 (onUpdate_three_branches picker_env 1
             (mkState 0 0 0 (mkTrigger (1 # 2) (1 # 6000) (-1) 3000) None))));
      concrete.
  - apply (proj1 (proj2 (proj2 (onUpdate_three_branches picker_env 1
             (picker_state 1500))))).
    + concrete.
    + left. concrete.
  - apply (proj2 (proj2 (proj2 (onUpdate_three_branches picker_env 1
             (picker_state 1500))))); concrete.
Defined.

(** ** The snap path *)

Section SnapPath.

Context {A : Type}.
Variable env : Env A.

Lemma clamp_range (lo hi v : Q) :
  lo <= hi -> lo <= GsapUtils.clamp lo hi v /\ GsapUtils.clamp lo hi v <= hi.
Proof.
  intro H. unfold GsapUtils.clamp.
  destruct (Js.ltb v lo) eqn:E1.
  - lra.
  - apply ltb_ge in E1.
    destruct (Js.gtb v hi) eqn:E2.
    + lra.
    + apply gtb_le in E2. lra.
Qed.

Lemma clamp_id (lo hi v : Q) :
  lo <= v -> v <= hi -> GsapUtils.clamp lo hi v = v.
Proof.
  intros H1 H2. unfold GsapUtils.clamp.
  rewrite (proj2 (ltb_ge _ _) H1). now rewrite (proj2 (gtb_le _ _) H2).
Qed.

(** [gsap.utils.wrap(0, 1, p)] is the fractional part of [p]. *)
Lemma wrap_unit (p : Q) :
  exists w, GsapUtils.wrap 0 1 p = Done w /\
            w == p - inject_Z (Qfloor p) /\ 0 <= w /\ w < 1.
Proof.
  assert (H1 : 0 < 1) by lra.
  destruct (wrap_floor 1 p H1) as (w & E & Hw).
  exists w. split; [exact E |].
  destruct (wrap_range 1 p w H1 E) as [R0 R1].
  repeat split; try assumption.
  rewrite Hw. assert (Ep : p / 1 == p) by (field).
  rewrite (Qfloor_comp _ _ Ep). ring.
Qed.

Lemma progressToScroll_runs (t : Trigger) (p : Q) :
  2 <= t_end t ->
  exists w s,
    GsapUtils.wrap 0 1 p = Done w /\
    w == p - inject_Z (Qfloor p) /\ 0 <= w /\ w < 1 /\
    progressToScroll t p = Done s /\
    s = GsapUtils.clamp 1 (t_end t - 1) (w * t_end t) /\
    1 <= s /\ s <= t_end t - 1.
Proof.
  intro He.
  destruct (wrap_unit p) as (w & E & Hw & R0 & R1).
  exists w, (GsapUtils.clamp 1 (t_end t - 1) (w * t_end t)).
  unfold progressToScroll. rewrite E. cbn [bind].
  destruct (clamp_range 1 (t_end t - 1) (w * t_end t)) as [C1 C2]; [lra |].
  repeat split; assumption.
Qed.

(** The wrap operation with a scroll target away from the boundary buffers:
    the iteration moves by the delta, the trigger is repositioned, and the
    scroll driver re-aims the tween if the progress changed. *)
Lemma wrap_in_zone (fuel : nat) (delta : Z) (scrollTo : Q) (st : State) :
  1 <= scrollTo -> scrollTo <= t_end (trigger st) - 1 ->
  exists st',
    wrap (onUpdate (S fuel) env) delta scrollTo st = Done st' /\
    iteration st' = (iteration st + delta)%Z /\
    t_scroll (trigger st') = scrollTo /\
    t_end (trigger st') = t_end (trigger st) /\
    startOffset st' = startOffset st /\
    ((t_progress (trigger st) == scrollTo / t_end (trigger st) /\
      scrub_offset st' = scrub_offset st /\
      scrub_restarts st' = scrub_restarts st /\
      t_progress (trigger st') = t_progress (trigger st)) \/
     (~ t_progress (trigger st) == scrollTo / t_end (trigger st) /\
      scrub_offset st'
      = (inject_Z (iteration st + delta) + scrollTo / t_end (trigger st))
        * duration (seamlessLoop env) /\
      scrub_restarts st' = S (scrub_restarts st) /\
      t_progress (trigger st') = scrollTo / t_end (trigger st))).
Proof.
  intros H1 H2. unfold wrap.
  rewrite update_in_zone by (cbn; assumption).
  eexists. split; [reflexivity |].
  cbn [trigger trigger_scroll set_trigger set_iteration t_scroll t_end
       t_progress iteration startOffset scrub_offset scrub_restarts].
  destruct (Qeq_bool (scrollTo / t_end (trigger st)) (t_progress (trigger st))) eqn:E.
  - cbn. repeat split. left. repeat split.
    apply Qeq_bool_iff in E. now symmetry.
  - cbn. repeat split. right. repeat split.
    intro C. symmetry in C. apply Qeq_bool_iff in C. congruence.
Qed.

Lemma floor_zero (p : Q) : 0 <= p -> p < 1 -> Js.floor p = 0%Z.
Proof.
  intros H0 H1. apply floor_unique; change (inject_Z 0) with 0; lra.
Qed.

(** One run of [scrollToOffset], step by step: the snapped time, the
    progress recomputed from it, the scroll position, and the final state,
    reached by a plain [trigger.scroll] when the progress is in [[0, 1)] and
    through [wrap] with delta [floor(progress)] otherwise. *)
Lemma scrollToOffset_runs (fuel : nat) (offset : Q) (st : State) :
  ~ spacing env == 0 ->
  ~ duration (seamlessLoop env) == 0 ->
  2 <= t_end (trigger st) ->
  exists snapped progress scroll st',
    snapTime env offset = Done snapped /\
    snapped = inject_Z (Js.round (offset / spacing env)) * spacing env /\
    offsetToProgress env (iteration st) snapped = Done progress /\
    progress = (snapped - duration (seamlessLoop env) * inject_Z (iteration st))
               / duration (seamlessLoop env) /\
    progressToScroll (trigger st) progress = Done scroll /\
    1 <= scroll /\ scroll <= t_end (trigger st) - 1 /\
    scrollToOffset (S fuel) env offset st = Done st' /\
    iteration st' = (iteration st + Js.floor progress)%Z /\
    t_scroll (trigger st') = scroll /\
    t_end (trigger st') = t_end (trigger st) /\
    ((0 <= progress /\ progress < 1 /\ st' = trigger_scroll scroll st) \/
     ((progress < 0 \/ 1 <= progress) /\
      scrollToOffset (S fuel) env offset st
      = wrap (onUpdate (S fuel) env) (Js.floor progress) scroll st)).
Proof.
  intros Hs Hd He.
  destruct (progressToScroll_runs (trigger st)
              ((inject_Z (Js.round (offset / spacing env)) * spacing env
                - duration (seamlessLoop env) * inject_Z (iteration st))
               / duration (seamlessLoop env)) He)
    as (w & scroll & _ & _ & _ & _ & Ep & _ & S1 & S2).
  unfold scrollToOffset, snapTime, GsapUtils.snap, offsetToProgress.
  rewrite (div_nonzero offset _ Hs). cbn [bind].
  rewrite (div_nonzero _ _ Hd). cbn [bind].
  rewrite Ep. cbn [bind].
  set (snapped := inject_Z (Js.round (offset / spacing env)) * spacing env) in *.
  set (progress := (snapped - duration (seamlessLoop env) * inject_Z (iteration st))
                   / duration (seamlessLoop env)) in *.
  destruct (Js.geb progress 1) eqn:G.
  - apply geb_ge in G. cbn [orb].
    destruct (wrap_in_zone fuel (Js.floor progress) scroll st S1 S2)
      as (st' & Ew & Hi & Hsc & Hen & _).
    exists snapped, progress, scroll, st'.
    repeat split; try assumption; try reflexivity;
      try (apply div_nonzero; assumption).
    right. split; [now right | reflexivity].
  - apply geb_lt in G. cbn [orb].
    destruct (Js.ltb progress 0) eqn:L.
    + apply ltb_lt in L.
      destruct (wrap_in_zone fuel (Js.floor progress) scroll st S1 S2)
        as (st' & Ew & Hi & Hsc & Hen & _).
      exists snapped, progress, scroll, st'.
      repeat split; try assumption; try reflexivity;
        try (apply div_nonzero; assumption).
      right. split; [now left | reflexivity].
    + apply ltb_ge in L.
      exists snapped, progress, scroll, (trigger_scroll scroll st).
      repeat split; try assumption; try reflexivity.
      * apply div_nonzero; assumption.
      * rewrite (floor_zero progress) by assumption. cbn. lia.
      * left. repeat split; assumption.
Qed.

(** C10: for every progress [p], also outside [[0, 1]], [progressToScroll]
    first wraps [p] into [[0, 1)] and then clamps the scaled value, so that,
    when [trigger.end >= 2], its result lies in [[1, trigger.end - 1]]; and
    the scroll position the snap path [scrollToOffset] leaves the trigger
    at lies in that range too, outside the two boundary buffers. *)
Theorem progressToScroll_avoids_buffers
    (p : Q) (fuel : nat) (offset : Q) (st : State) :
  2 <= t_end (trigger st) ->
  (exists w s,
      GsapUtils.wrap 0 1 p = Done w /\ 0 <= w /\ w < 1 /\
      progressToScroll (trigger st) p = Done s /\
      s = GsapUtils.clamp 1 (t_end (trigger st) - 1) (w * t_end (trigger st)) /\
      1 <= s /\ s <= t_end (trigger st) - 1) /\
  (~ spacing env == 0 -> ~ duration (seamlessLoop env) == 0 ->
   exists st',
      scrollToOffset (S fuel) env offset st = Done st' /\
      1 <= t_scroll (trigger st') /\
      t_scroll (trigger st') <= t_end (trigger st') - 1).
Proof.
  intro He. split.
  - destruct (progressToScroll_runs (trigger st) p He)
      as (w & s & E & _ & R0 & R1 & Ep & Es & S1 & S2).
    exists w, s. repeat split; assumption.
  - intros Hs Hd.
    destruct (scrollToOffset_runs fuel offset st Hs Hd He)
      as (snapped & progress & scroll & st' & _ & _ & _ & _ & _ & S1 & S2
          & Er & _ & Hsc & Hen & _).
    exists st'. rewrite Hsc, Hen. repeat split; assumption.
Qed.

End SnapPath.

Lemma progressToScroll_avoids_buffers_witness :
  2 <= t_end (trigger (picker_state 1500)) /\
  (exists w s,
      GsapUtils.wrap 0 1 (- (7 # 3)) = Done w /\ 0 <= w /\ w < 1 /\
      progressToScroll (trigger (picker_state 1500)) (- (7 # 3)) = Done s /\
      s = GsapUtils.clamp 1 (t_end (trigger (picker_state 1500)) - 1)
            (w * t_end (trigger (picker_state 1500))) /\
      1 <= s /\ s <= t_end (trigger (picker_state 1500)) - 1) /\
  (exists st',
      scrollToOffset 1 picker_env 7 (picker_state 1500) = Done st' /\
      1 <= t_scroll (trigger st') /\
      t_scroll (trigger st') <= t_end (trigger st') - 1).
Proof.
  assert (He : 2 <= t_end (trigger (picker_state 1500))) by concrete.
  split; [exact He |].
  destruct (progressToScroll_avoids_buffers picker_env (- (7 # 3)) 0 7
              (picker_state 1500) He) as [H1 H2].
  split; [exact H1 |].
  apply H2; concrete.
Defined.

(** ** Wrap events and the iteration counter *)

Section WrapEvents.

Context {A : Type}.
Variable env : Env A.

(** After a wrap by [floor(progress)] the progress of the same offset,
    recomputed at the new iteration, is the fractional part of the old. *)
Lemma progress_after_wrap (iter : Z) (offset progress : Q) :
  ~ duration (seamlessLoop env) == 0 ->
  offsetToProgress env iter offset = Done progress ->
  exists progress',
    offsetToProgress env (iter + Js.floor progress) offset = Done progress' /\
    progress' == progress - inject_Z (Js.floor progress) /\
    0 <= progress' /\ progress' < 1.
Proof.
  intros Hd E. unfold offsetToProgress in *.
  rewrite div_nonzero by assumption.
  rewrite div_nonzero in E by assumption. injection E as E.
  eexists. split; [reflexivity |].
  destruct (floor_bounds progress) as [F1 F2]. unfold Js.floor.
  set (f := Qfloor progress) in *.
  assert (Q1 : (offset - duration (seamlessLoop env) * inject_Z (iter + f))
               / duration (seamlessLoop env)
               == progress - inject_Z f).
  { rewrite <- E. rewrite inject_Z_plus. field. exact Hd. }
  rewrite Q1. repeat split; lra.
Qed.

(** C2, as the code has it: a wrap event moves the iteration counter by
    exactly the delta [wrap] is called with.  The scroll driver calls it
    with +1 at the far end of the scroll range and with -1 at the near end.
    The snap path calls it with [floor(progress)] of the progress it has
    computed: that is +1 or -1 only when the progress lies in [[1, 2)] or
    in [[-1, 0)], and 2 or more in magnitude when the offset it was passed
    has jumped so far that the progress is at least 2 or below -1. *)
Theorem wrap_moves_iteration_by_its_delta
    (fuel : nat) (delta : Z) (scrollTo offset p : Q) (st : State) :
  2 <= t_end (trigger st) ->
  (1 <= scrollTo -> scrollTo <= t_end (trigger st) - 1 ->
     exists st', wrap (onUpdate (S fuel) env) delta scrollTo st = Done st' /\
                 iteration st' = (iteration st + delta)%Z) /\
  (t_end (trigger st) - 1 < t_scroll (trigger st) ->
     exists st', onUpdate (S (S fuel)) env st = Done st' /\
                 iteration st' = (iteration st + 1)%Z) /\
  (t_scroll (trigger st) < 1 -> (t_direction (trigger st) < 0)%Z ->
     exists st', onUpdate (S (S fuel)) env st = Done st' /\
                 iteration st' = (iteration st - 1)%Z) /\
  (1 <= scrollTo -> scrollTo <= t_end (trigger st) - 1 ->
     exists st',
       wrap (onUpdate (S fuel) env) (Js.floor p) scrollTo st = Done st' /\
       iteration st' = (iteration st + Js.floor p)%Z /\
       (1 <= p -> p < 2 -> iteration st' = (iteration st + 1)%Z) /\
       (-1 <= p -> p < 0 -> iteration st' = (iteration st - 1)%Z) /\
       (2 <= p -> (iteration st + 2 <= iteration st')%Z) /\
       (p < -1 -> (iteration st' <= iteration st - 2)%Z)) /\
  (~ spacing env == 0 -> ~ duration (seamlessLoop env) == 0 ->
     exists snapped progress scroll st',
       snapTime env offset = Done snapped /\
       offsetToProgress env (iteration st) snapped = Done progress /\
       progressToScroll (trigger st) progress = Done scroll /\
       1 <= scroll /\ scroll <= t_end (trigger st) - 1 /\
       scrollToOffset (S fuel) env offset st = Done st' /\
       (progress < 0 \/ 1 <= progress ->
        scrollToOffset (S fuel) env offset st
        = wrap (onUpdate (S fuel) env) (Js.floor progress) scroll st)).
Proof.
  intro He. split; [| split; [| split; [| split]]].
  - intros H1 H2.
    destruct (wrap_in_zone env fuel delta scrollTo st H1 H2) as (st' & E & Hi & _).
    now exists st'.
  - intro H. cbn [onUpdate]. rewrite (proj2 (gtb_gt _ _) H).
    destruct (wrap_in_zone env fuel 1 1 st) as (st' & E & Hi & _); [lra | lra |].
    now exists st'.
  - intros H1 H2. cbn [onUpdate].
    assert (Hle : t_scroll (trigger st) <= t_end (trigger st) - 1) by lra.
    rewrite (proj2 (gtb_le _ _) Hle).
    rewrite (proj2 (ltb_lt _ _) H1), (proj2 (Z.ltb_lt _ _) H2). cbn [andb].
    destruct (wrap_in_zone env fuel (-1) (t_end (trigger st) - 1) st)
      as (st' & E & Hi & _); [lra | lra |].
    now exists st'.
  - intros H1 H2.
    destruct (wrap_in_zone env fuel (Js.floor p) scrollTo st H1 H2)
      as (st' & E & Hi & _).
    exists st'. rewrite Hi. repeat split; try assumption.
    + intros L U. f_equal. apply floor_unique; change (inject_Z 1) with 1; lra.
    + intros L U.
      assert (F : Js.floor p = (-1)%Z)
        by (apply floor_unique; change (inject_Z (-1)) with (-1); lra).
      lia.
    + intro L. pose proof (Qfloor_resp_le 2 p L) as F.
      change (Qfloor 2) with 2%Z in F. unfold Js.floor. lia.
    + intro U. destruct (floor_bounds p) as [F _].
      assert (F' : inject_Z (Js.floor p) < inject_Z (-1))
        by (unfold Js.floor; change (inject_Z (-1)) with (-1); lra).
      rewrite <- Zlt_Qlt in F'. lia.
  - intros Hs Hd.
    destruct (scrollToOffset_runs env fuel offset st Hs Hd He)
      as (snapped & progress & scroll & st' & Es & _ & Ep & _ & Esc & S1 & S2
          & Er & _ & _ & _ & Hcase).
    exists snapped, progress, scroll, st'.
    repeat split; try assumption.
    intro Hout.
    destruct Hcase as [(P0 & P1 & _) | (_ & Ew)]; [lra | exact Ew].
Qed.

End WrapEvents.

Lemma wrap_moves_iteration_by_its_delta_witness :
  2 <= t_end (trigger (picker_state 1500)) /\
  (exists st',
      wrap (onUpdate 1 picker_env) 2 (3300000 # 3100) (picker_state 1500) = Done st' /\
      iteration st' = (iteration (picker_state 1500) + 2)%Z) /\
  (exists st',
      onUpdate 2 picker_env (picker_state (5999 # 2)) = Done st' /\
      iteration st' = (iteration (picker_state (5999 # 2)) + 1)%Z) /\
  (exists st',
      onUpdate 2 picker_env
        (mkState 0 0 0 (mkTrigger (1 # 2) (1 # 6000) (-1) 3000) None) = Done st' /\
      iteration st' = (0 - 1)%Z) /\
  (exists st',
      wrap (onUpdate 1 picker_env) (Js.floor (73 # 31)) (3300000 # 3100)
        (picker_state 1500) = Done st' /\
      iteration st' = (iteration (picker_state 1500) + Js.floor (73 # 31))%Z /\
      (1 <= 73 # 31 -> 73 # 31 < 2 ->
       iteration st' = (iteration (picker_state 1500) + 1)%Z) /\
      (-1 <= 73 # 31 -> 73 # 31 < 0 ->
       iteration st' = (iteration (picker_state 1500) - 1)%Z) /\
      (2 <= 73 # 31 -> (iteration (picker_state 1500) + 2 <= iteration st')%Z) /\
      (73 # 31 < -1 -> (iteration st' <= iteration (picker_state 1500) - 2)%Z)) /\
  (exists snapped progress scroll st',
      snapTime picker_env (73 # 10) = Done snapped /\
      offsetToProgress picker_env (iteration (picker_state 1500)) snapped
      = Done progress /\
      progressToScroll (trigger (picker_state 1500)) progress = Done scroll /\
      1 <= scroll /\ scroll <= t_end (trigger (picker_state 1500)) - 1 /\
      scrollToOffset 1 picker_env (73 # 10) (picker_state 1500) = Done st' /\
      (progress < 0 \/ 1 <= progress ->
       scrollToOffset 1 picker_env (73 # 10) (picker_state 1500)
       = wrap (onUpdate 1 picker_env) (Js.floor progress) scroll (picker_state 1500))).
Proof.
  assert (He : 2 <= t_end (trigger (picker_state 1500))) by concrete.
  split; [exact He |].
  split; [| split; [| split; [| split]]].
  - apply (proj1 (wrap_moves_iteration_by_its_delta picker_env 0 2
                    (3300000 # 3100) 0 0 (picker_state 1500) He)); concrete.
  - apply (proj1 (proj2 (wrap_moves_iteration_by_its_delta picker_env 0 0 0 0 0
                           (picker_state (5999 # 2)) ltac:(concrete)))); concrete.
  - apply (proj1 (proj2 (proj2 (wrap_moves_iteration_by_its_delta picker_env 0 0 0 0 0
             (mkState 0 0 0 (mkTrigger (1 # 2) (1 # 6000) (-1) 3000) None)
             ltac:(concrete))))); concrete.
  - apply (proj1 (proj2 (proj2 (proj2 (wrap_moves_iteration_by_its_delta picker_env
             0 0 (3300000 # 3100) 0 (73 # 31) (picker_state 1500) He))))); concrete.
  - apply (proj2 (proj2 (proj2 (proj2 (wrap_moves_iteration_by_its_delta picker_env
             0 0 0 (73 # 10) 0 (picker_state 1500) He))))); concrete.
Defined.

(** C2 as stated fails: from the state right after set-up, four drags of
    1800px to the left move the tween's target to 7.2 without touching the
    iteration; a click on Next is then one wrap event of the snap path, and
    it moves the iteration by 2. *)
Lemma snap_wrap_after_drags_moves_two_cycles :
  exists st st',
    (let* s1 := onDrag 0 (-1800) (onPress (picker_state 0)) in
     let* s2 := onDrag (-1800) (-3600) (onPress s1) in
     let* s3 := onDrag (-3600) (-5400) (onPress s2) in
     onDrag (-5400) (-7200) (onPress s3)) = Done st /\
    next 1 picker_env st = wrap (onUpdate 1 picker_env) 2 (3300000 # 3100) st /\
    next 1 picker_env st = Done st' /\
    iteration st = 0%Z /\
    iteration st' = 2%Z /\
    iteration st' <> (iteration st + 1)%Z /\
    iteration st' <> (iteration st - 1)%Z.
Proof.
  eexists. eexists.
  split; [vm_compute; reflexivity |].
  split; [vm_compute; reflexivity |].
  split; [vm_compute; reflexivity |].
  repeat split; concrete.
Qed.

(** ** The snap path: wrap or plain scroll *)

(** C4 as stated fails in its last scenario: 0.05 lies exactly half way
    between the multiples 0.0 and 0.1 of the spacing, and [snapTime] sends
    it to 0.1, not to 0.0. *)
Lemma snapTime_of_half_spacing_is_one_spacing :
  exists snapped,
    snapTime picker_env (5 # 100) = Done snapped /\
    snapped == 1 # 10 /\ ~ snapped == 0.
Proof.
  eexists. split; [vm_compute; reflexivity |]. split; concrete.
Qed.

(** C4, as the code has it: in [scrollToOffset], if the progress recomputed
    from the snapped offset, [(snap(offset) - duration * iteration) /
    duration], is outside [[0, 1)], the update goes through [wrap] with
    delta [floor(progress)], which changes the iteration; otherwise the
    scroll position is set plainly and the iteration stays.  For the picker
    (31 items, spacing 0.1, duration 3.1) at iteration 0: offset 3.07 snaps
    to 3.1, whose progress is 1, so a wrap of +1 occurs and the progress at
    iteration 1 is 0; offset 0.05 is a tie and snaps to 0.1, with no wrap;
    offset 0.04 snaps to 0.0, with no wrap. *)
Theorem scrollToOffset_wraps_outside_unit_progress :
  (forall (A : Type) (env : Env A) (fuel : nat) (offset : Q) (st : State),
      ~ spacing env == 0 -> ~ duration (seamlessLoop env) == 0 ->
      2 <= t_end (trigger st) ->
      exists snapped progress scroll st',
        snapTime env offset = Done snapped /\
        offsetToProgress env (iteration st) snapped = Done progress /\
        progress = (snapped - duration (seamlessLoop env) * inject_Z (iteration st))
                   / duration (seamlessLoop env) /\
        progressToScroll (trigger st) progress = Done scroll /\
        scrollToOffset (S fuel) env offset st = Done st' /\
        (progress < 0 \/ 1 <= progress ->
           scrollToOffset (S fuel) env offset st
           = wrap (onUpdate (S fuel) env) (Js.floor progress) scroll st /\
           iteration st' = (iteration st + Js.floor progress)%Z /\
           iteration st' <> iteration st) /\
        (0 <= progress -> progress < 1 ->
           st' = trigger_scroll scroll st /\ iteration st' = iteration st)) /\
  (forall (fuel : nat) (st : State),
      iteration st = 0%Z -> 2 <= t_end (trigger st) ->
      duration (seamlessLoop picker_env) == 31 # 10 /\
      (exists snapped progress scroll st' progress',
          snapTime picker_env (307 # 100) = Done snapped /\ snapped == 31 # 10 /\
          offsetToProgress picker_env 0 snapped = Done progress /\ progress == 1 /\
          progressToScroll (trigger st) progress = Done scroll /\
          scrollToOffset (S fuel) picker_env (307 # 100) st
          = wrap (onUpdate (S fuel) picker_env) 1 scroll st /\
          scrollToOffset (S fuel) picker_env (307 # 100) st = Done st' /\
          iteration st' = 1%Z /\
          offsetToProgress picker_env (iteration st') snapped = Done progress' /\
          progress' == 0) /\
      (exists snapped progress scroll,
          snapTime picker_env (5 # 100) = Done snapped /\ snapped == 1 # 10 /\
          offsetToProgress picker_env 0 snapped = Done progress /\
          0 <= progress /\ progress < 1 /\
          progressToScroll (trigger st) progress = Done scroll /\
          scrollToOffset (S fuel) picker_env (5 # 100) st
          = Done (trigger_scroll scroll st)) /\
      (exists snapped progress scroll,
          snapTime picker_env (4 # 100) = Done snapped /\ snapped == 0 /\
          offsetToProgress picker_env 0 snapped = Done progress /\
          progress == 0 /\
          progressToScroll (trigger st) progress = Done scroll /\
          scrollToOffset (S fuel) picker_env (4 # 100) st
          = Done (trigger_scroll scroll st))).
Proof.
  split.
  - intros A env fuel offset st Hs Hd He.
    destruct (scrollToOffset_runs env fuel offset st Hs Hd He)
      as (snapped & progress & scroll & st' & Es & _ & Ep & Epe & Esc & _ & _
          & Er & Hi & _ & _ & Hcase).
    exists snapped, progress, scroll, st'.
    repeat split; try assumption.
    + destruct Hcase as [(P0 & P1 & _) | (_ & Ew)]; [lra | exact Ew].
    + destruct (floor_bounds progress) as [F1 F2]. unfold Js.floor in *.
      intro C. rewrite Hi in C.
      assert (F0 : Qfloor progress = 0%Z) by lia.
      rewrite F0 in F1, F2. change (inject_Z 0) with 0 in F1, F2. lra.
    + destruct Hcase as [(_ & _ & E) | (Hout & _)]; [exact E | lra].
    + rewrite Hi, floor_zero by assumption. lia.
  - intros fuel st Hit He.
    assert (Hs : ~ spacing picker_env == 0) by concrete.
    assert (Hd : ~ duration (seamlessLoop picker_env) == 0) by concrete.
    split; [concrete |].
    split; [| split].
    + destruct (scrollToOffset_runs picker_env fuel (307 # 100) st Hs Hd He)
        as (snapped & progress & scroll & st' & Es & Esn & Ep & Epe & Esc & _ & _
            & Er & Hi & _ & _ & Hcase).
      rewrite Hit in *.
      assert (Qs : snapped == 31 # 10) by (rewrite Esn; concrete).
      assert (Qp : progress == 1) by (rewrite Epe, Esn; concrete).
      assert (Fp : Js.floor progress = 1%Z)
        by (apply floor_unique; change (inject_Z 1) with 1; lra).
      destruct (progress_after_wrap picker_env 0 snapped progress Hd Ep)
        as (progress' & Ep' & Qp' & _).
      rewrite Fp in *.
      exists snapped, progress, scroll, st', progress'.
      repeat split; try assumption.
      * destruct Hcase as [(_ & P1 & _) | (_ & Ew)]; [lra | exact Ew].
      * rewrite Hi. exact Ep'.
      * rewrite Qp', Qp. reflexivity.
    + destruct (scrollToOffset_runs picker_env fuel (5 # 100) st Hs Hd He)
        as (snapped & progress & scroll & st' & Es & Esn & Ep & Epe & Esc & _ & _
            & Er & Hi & _ & _ & Hcase).
      rewrite Hit in *.
      assert (Qs : snapped == 1 # 10) by (rewrite Esn; concrete).
      assert (Qp : progress == 1 # 31) by (rewrite Epe, Esn; concrete).
      exists snapped, progress, scroll.
      repeat split; try assumption; try lra.
      destruct Hcase as [(_ & _ & E) | (Hout & _)]; [now rewrite <- E | lra].
    + destruct (scrollToOffset_runs picker_env fuel (4 # 100) st Hs Hd He)
        as (snapped & progress & scroll & st' & Es & Esn & Ep & Epe & Esc & _ & _
            & Er & Hi & _ & _ & Hcase).
      rewrite Hit in *.
      assert (Qs : snapped == 0) by (rewrite Esn; concrete).
      assert (Qp : progress == 0) by (rewrite Epe, Esn; concrete).
      exists snapped, progress, scroll.
      repeat split; try assumption.
      destruct Hcase as [(_ & _ & E) | (Hout & _)]; [now rewrite <- E | lra].
Qed.

Lemma scrollToOffset_wraps_outside_unit_progress_witness :
  (~ spacing picker_env == 0 /\
   ~ duration (seamlessLoop picker_env) == 0 /\
   2 <= t_end (trigger (picker_state 1500)) /\
   iteration (picker_state 1500) = 0%Z) /\
  (exists snapped progress scroll st',
      snapTime picker_env 7 = Done snapped /\
      offsetToProgress picker_env (iteration (picker_state 1500)) snapped
      = Done progress /\
      progress = (snapped - duration (seamlessLoop picker_env)
                            * inject_Z (iteration (picker_state 1500)))
                 / duration (seamlessLoop picker_env) /\
      progressToScroll (trigger (picker_state 1500)) progress = Done scroll /\
      scrollToOffset 1 picker_env 7 (picker_state 1500) = Done st' /\
      (progress < 0 \/ 1 <= progress ->
         scrollToOffset 1 picker_env 7 (picker_state 1500)
         = wrap (onUpdate 1 picker_env) (Js.floor progress) scroll (picker_state 1500) /\
         iteration st' = (iteration (picker_state 1500) + Js.floor progress)%Z /\
         iteration st' <> iteration (picker_state 1500)) /\
      (0 <= progress -> progress < 1 ->
         st' = trigger_scroll scroll (picker_state 1500) /\
         iteration st' = iteration (picker_state 1500))) /\
  (exists snapped progress scroll st' progress',
      snapTime picker_env (307 # 100) = Done snapped /\ snapped == 31 # 10 /\
      offsetToProgress picker_env 0 snapped = Done progress /\ progress == 1 /\
      progressToScroll (trigger (picker_state 1500)) progress = Done scroll /\
      scrollToOffset 1 picker_env (307 # 100) (picker_state 1500)
      = wrap (onUpdate 1 picker_env) 1 scroll (picker_state 1500) /\
      scrollToOffset 1 picker_env (307 # 100) (picker_state 1500) = Done st' /\
      iteration st' = 1%Z /\
      offsetToProgress picker_env (iteration st') snapped = Done progress' /\
      progress' == 0).
Proof.
  assert (Hs : ~ spacing picker_env == 0) by concrete.
  assert (Hd : ~ duration (seamlessLoop picker_env) == 0) by concrete.
  assert (He : 2 <= t_end (trigger (picker_state 1500))) by concrete.
  assert (Hi : iteration (picker_state 1500) = 0%Z) by reflexivity.
  split; [repeat split; assumption |].
  split.
  - exact (proj1 scrollToOffset_wraps_outside_unit_progress
             nat picker_env 0%nat 7 (picker_state 1500) Hs Hd He).
  - exact (proj1 (proj2 (proj2 scrollToOffset_wraps_outside_unit_progress
                           0%nat (picker_state 1500) Hi He))).
Defined.

(** ** The cycle builder *)

Section CycleBuilder.

Context {A : Type}.
Variable animate : A -> Anim A.
Variable items : list A.
Variable spacing : Q.

(** What the [forEach] of [buildSeamlessLoop] adds to the raw sequence: the
    [j]-th item visited is placed at [j * spacing]. *)
Lemma place_raw (rest : list A) (i : nat) (raw : list (Q * Anim A)) (dur : option Q) :
  fst (place animate items spacing rest i raw dur)
  = raw ++ map (fun '(j, item) =>
                  (inject_Z (Z.of_nat j) * spacing,
                   animate (nth (j mod length items) items item)))
               (combine (seq i (length rest)) rest).
Proof.
  revert i raw dur.
  induction rest as [| item rest IH]; intros i raw dur; cbn [place].
  - cbn. now rewrite app_nil_r.
  - rewrite IH. cbn [length seq combine map]. now rewrite <- app_assoc.
Qed.

(** C6, as the code has it: [buildSeamlessLoop] checks nothing and rejects
    nothing.  For every item list and every spacing, an empty list and a
    zero or negative spacing included, it returns a loop whose tween is
    given the duration [cycleDuration = spacing * N], over a raw sequence of
    [3 * N] animations placed at [i * spacing]; for an empty list that is a
    loop of duration zero over an empty raw sequence, starting at NaN, and
    for a spacing of zero a loop of duration zero. *)
Theorem buildSeamlessLoop_never_rejects :
  let loop := buildSeamlessLoop items spacing animate in
  tween_duration loop = spacing * inject_Z (Z.of_nat (length items)) /\
  by_time loop = tween_duration loop /\
  repeat loop = (-1)%Z /\
  length (rawSequence loop) = (3 * length items)%nat /\
  map fst (rawSequence loop)
  = map (fun j => inject_Z (Z.of_nat j) * spacing) (seq 0 (3 * length items)) /\
  buildSeamlessLoop [] spacing animate
  = mkLoop [] NonFinite (spacing * 0) (spacing * 0) (-1) /\
  duration (buildSeamlessLoop [] spacing animate) == 0 /\
  duration (buildSeamlessLoop items 0 animate) == 0.
Proof.
  assert (Hraw : rawSequence (buildSeamlessLoop items spacing animate)
                 = fst (place animate items spacing (items ++ items ++ items)
                          0 [] None)).
  { unfold buildSeamlessLoop.
    now destruct (place animate items spacing (items ++ items ++ items) 0 [] None). }
  assert (Hlen : length (items ++ items ++ items) = (3 * length items)%nat)
    by (rewrite !length_app; lia).
  assert (Hdur : forall s, tween_duration (buildSeamlessLoop items s animate)
                           = s * inject_Z (Z.of_nat (length items))).
  { intro s. unfold buildSeamlessLoop.
    now destruct (place animate items s (items ++ items ++ items) 0 [] None). }
  assert (Hzero : forall l : SeamlessLoop A, tween_duration l == 0 -> duration l == 0).
  { intros l E. unfold duration.
    destruct (Js.ltb (tween_duration l) 0); [reflexivity | exact E]. }
  cbv zeta. repeat split.
  - apply Hdur.
  - unfold buildSeamlessLoop.
    now destruct (place animate items spacing (items ++ items ++ items) 0 [] None).
  - unfold buildSeamlessLoop.
    now destruct (place animate items spacing (items ++ items ++ items) 0 [] None).
  - rewrite Hraw, place_raw. cbn [app].
    rewrite length_map, length_combine, length_seq, Hlen. lia.
  - rewrite Hraw, place_raw. cbn [app]. rewrite <- Hlen.
    generalize (items ++ items ++ items) as rest. generalize 0%nat as i.
    intros i rest. revert i.
    induction rest as [| item rest IH]; intro i; [reflexivity |].
    cbn [length seq combine map fst]. now rewrite IH.
  - apply Hzero. cbn. ring.
  - apply Hzero. rewrite Hdur. ring.
Qed.

End CycleBuilder.

(** C6 as stated fails: built from no items, or with a spacing of zero, the
    loop comes back with a duration of zero; with a negative spacing it
    comes back too, its tween given a negative duration. *)
Lemma buildSeamlessLoop_accepts_degenerate_input :
  buildSeamlessLoop (@nil nat) picker_spacing animateFunc
  = mkLoop [] NonFinite (picker_spacing * 0) (picker_spacing * 0) (-1) /\
  duration (buildSeamlessLoop (@nil nat) picker_spacing animateFunc) == 0 /\
  duration (buildSeamlessLoop cards 0 animateFunc) == 0 /\
  length (rawSequence (buildSeamlessLoop cards 0 animateFunc)) = 93%nat /\
  tween_duration (buildSeamlessLoop cards (- (1 # 10)) animateFunc) == - (31 # 10).
Proof.
  repeat split; concrete.
Qed.

(** ** Scroll position and offset *)

Section RoundTrip.

Context {A : Type}.
Variable env : Env A.

(** C7: for a scroll position [s] in the normal zone [[1, end - 1]], the
    scroll driver turns [s] into the offset [(iteration + s / end) *
    duration]; the progress [(offset - duration * iteration) / duration]
    recomputed from that offset, passed to [progressToScroll], gives [s]
    back (exactly, the arithmetic being exact here). *)
Theorem scroll_offset_scroll_round_trip (fuel : nat) (st : State) :
  ~ duration (seamlessLoop env) == 0 ->
  1 <= t_scroll (trigger st) ->
  t_scroll (trigger st) <= t_end (trigger st) - 1 ->
  t_progress (trigger st) == t_scroll (trigger st) / t_end (trigger st) ->
  exists st1 progress s',
    onUpdate (S fuel) env st = Done st1 /\
    scrub_offset st1
    == (inject_Z (iteration st) + t_scroll (trigger st) / t_end (trigger st))
       * duration (seamlessLoop env) /\
    offsetToProgress env (iteration st1) (scrub_offset st1) = Done progress /\
    progress == t_scroll (trigger st) / t_end (trigger st) /\
    progressToScroll (trigger st1) progress = Done s' /\
    s' == t_scroll (trigger st).
Proof.
  intros Hd H1 H2 Hp.
  rewrite (onUpdate_in_zone env fuel st H1 H2).
  exists (scrub_to_progress env st).
  cbn [scrub_to_progress scrub_restart set_scrub_offset iteration scrub_offset trigger].
  set (s := t_scroll (trigger st)) in *. set (e := t_end (trigger st)) in *.
  assert (He : 2 <= e) by lra.
  destruct (quot_unit_interval s e H1 H2) as [U0 U1].
  unfold offsetToProgress. rewrite div_nonzero by assumption.
  set (progress := ((inject_Z (iteration st) + t_progress (trigger st))
                    * duration (seamlessLoop env)
                    - duration (seamlessLoop env) * inject_Z (iteration st))
                   / duration (seamlessLoop env)).
  assert (Qp : progress == s / e).
  { unfold progress. rewrite <- Hp. field. exact Hd. }
  destruct (progressToScroll_runs (trigger st) progress He)
    as (w & s' & _ & Qw & _ & _ & Ep & Es & _ & _).
  assert (F : Qfloor progress = 0%Z)
    by (apply floor_unique; change (inject_Z 0) with 0; lra).
  rewrite F in Qw. change (inject_Z 0) with 0 in Qw.
  assert (Qs : w * e == s) by (rewrite Qw, Qp; field; lra).
  exists progress, s'. repeat split; try assumption.
  - rewrite Hp. reflexivity.
  - rewrite Es. fold e. rewrite clamp_id; [exact Qs | lra | lra].
Qed.

End RoundTrip.

Lemma scroll_offset_scroll_round_trip_witness :
  (~ duration (seamlessLoop picker_env) == 0 /\
   1 <= t_scroll (trigger (picker_state 1234)) /\
   t_scroll (trigger (picker_state 1234)) <= t_end (trigger (picker_state 1234)) - 1 /\
   t_progress (trigger (picker_state 1234))
   == t_scroll (trigger (picker_state 1234)) / t_end (trigger (picker_state 1234))) /\
  exists st1 progress s',
    onUpdate 1 picker_env (picker_state 1234) = Done st1 /\
    scrub_offset st1
    == (inject_Z (iteration (picker_state 1234))
        + t_scroll (trigger (picker_state 1234)) / t_end (trigger (picker_state 1234)))
       * duration (seamlessLoop picker_env) /\
    offsetToProgress picker_env (iteration st1) (scrub_offset st1) = Done progress /\
    progress == t_scroll (trigger (picker_state 1234)) / t_end (trigger (picker_state 1234)) /\
    progressToScroll (trigger st1) progress = Done s' /\
    s' == t_scroll (trigger (picker_state 1234)).
Proof.
  split.
  - repeat split; concrete.
  - apply (scroll_offset_scroll_round_trip picker_env 0 (picker_state 1234)); concrete.
Defined.

(** ** The drag driver *)

(** C8: the press records the tween's current target offset as
    [startOffset]; during the drag, whatever the pointer position [x], the
    tween's target offset becomes [startOffset + (startX - x) * 0.001] and
    the tween is restarted, while the trigger (the scroll-range input) and
    the iteration are left alone.  A drag of 1000px to the left from a
    start offset of 0 gives the target offset 1.0, which at spacing 0.1 is
    item index 10. *)
Theorem onDrag_targets_offset_directly (startX x : Q) (st : State) :
  (startOffset (onPress st) = Some (scrub_offset st) /\
   scrub_offset (onPress st) = scrub_offset st /\
   trigger (onPress st) = trigger st /\
   iteration (onPress st) = iteration st) /\
  (forall start,
      startOffset st = Some start ->
      exists st',
        onDrag startX x st = Done st' /\
        scrub_offset st' = start + (startX - x) * (1 # 1000) /\
        scrub_restarts st' = S (scrub_restarts st) /\
        trigger st' = trigger st /\
        iteration st' = iteration st) /\
  (scrub_offset st == 0 ->
   exists st',
     onDrag startX (startX - 1000) (onPress st) = Done st' /\
     scrub_offset st' == 1 /\
     Js.round (scrub_offset st' / picker_spacing) = 10%Z /\
     exists snapped, snapTime picker_env (scrub_offset st') = Done snapped /\
                     snapped == 1).
Proof.
  split; [| split].
  - repeat split.
  - intros start E. unfold onDrag. rewrite E.
    eexists. repeat split.
  - intro H0. unfold onDrag. cbn [onPress set_startOffset startOffset].
    eexists. split; [reflexivity |].
    cbn [scrub_restart set_scrub_offset scrub_offset].
    set (o := scrub_offset st + (startX - (startX - 1000)) * (1 # 1000)).
    assert (Qo : o == 1) by (unfold o; rewrite H0; ring).
    assert (R : Js.round (o / picker_spacing) = 10%Z).
    { unfold Js.round.
      assert (Qr : o / picker_spacing + (1 # 2) == 21 # 2)
        by (rewrite Qo; reflexivity).
      now rewrite (Qfloor_comp _ _ Qr). }
    repeat split; try assumption.
    unfold snapTime, GsapUtils.snap.
    rewrite div_nonzero by concrete. cbn [bind].
    eexists. split; [reflexivity |].
    change (spacing picker_env) with picker_spacing. rewrite R. reflexivity.
Qed.

Lemma onDrag_targets_offset_directly_witness :
  (startOffset (onPress (picker_state 1500)) = Some 0 /\
   scrub_offset (picker_state 1500) == 0) /\
  (exists st',
      onDrag 0 (-1000) (onPress (picker_state 1500)) = Done st' /\
      scrub_offset st' = 0 + (0 - -1000) * (1 # 1000) /\
      scrub_restarts st' = S (scrub_restarts (onPress (picker_state 1500))) /\
      trigger st' = trigger (onPress (picker_state 1500)) /\
      iteration st' = iteration (onPress (picker_state 1500))) /\
  (exists st',
      onDrag 0 (0 - 1000) (onPress (picker_state 1500)) = Done st' /\
      scrub_offset st' == 1 /\
      Js.round (scrub_offset st' / picker_spacing) = 10%Z /\
      exists snapped, snapTime picker_env (scrub_offset st') = Done snapped /\
                      snapped == 1).
Proof.
  split; [split; concrete |].
  split.
  - apply (proj1 (proj2 (onDrag_targets_offset_directly 0 (-1000)
                           (onPress (picker_state 1500))))).
    reflexivity.
  - apply (proj2 (proj2 (onDrag_targets_offset_directly 0 0 (picker_state 1500)))).
    concrete.
Defined.

(** ** The snap policy *)

Section SnapPolicy.

Context {A : Type}.
Variable env : Env A.





End SnapPolicy.



(** ** The snap policy in double precision *)

Section DoublePrecision.

Import PrimFloat.

(** C9 fails on the code: the snap policy is not idempotent in doubles.  At
    iteration 3 with the page stopped at 2971 (of 3000), the tween's target
    12.370033... snaps to 12.4, exactly one cycle past the iteration; the
    progress [(12.4 - 3.1 * 3) / 3.1] comes out just below 1 in doubles, so
    the test [progress >= 1 || progress < 0] fails and [scrollToOffset]
    does not wrap: it scrolls to 1 and leaves the iteration at 3.  The
    scroll driver then re-aims the tween at [(3 + 1 / 3000) * 3.1], and a
    second application of the policy snaps that to 9.3, a whole cycle below
    the 12.4 of the first.  In exact arithmetic the progress is 1 and the
    first application wraps. *)
Theorem doubles_second_snap_is_a_cycle_lower :
  let env := Doubles.picker_env in
  let st := Doubles.picker_at 3%float 2971%float in
  exists st1 st2 st3,
    Doubles.snapTime env (Doubles.scrub_offset st) = (124 / 10)%float /\
    (Doubles.offsetToProgress env 3 (124 / 10) <? 1)%float = true /\
    Doubles.scrollEnd 2 env st = Some st1 /\
    Doubles.iteration st1 = 3%float /\
    Doubles.t_scroll (Doubles.trigger st1) = 1%float /\
    Doubles.scroll_event 2 env st1 = Some st2 /\
    Doubles.iteration st2 = 3%float /\
    Doubles.scrub_offset st2 = ((3 + 1 / 3000) * Doubles.duration env)%float /\
    Doubles.snapTime env (Doubles.scrub_offset st2) = (93 / 10)%float /\
    (93 / 10 =? 124 / 10)%float = false /\
    Doubles.scrollEnd 2 env st2 = Some st3 /\
    Doubles.iteration st3 = 3%float /\
    exists p, offsetToProgress picker_env 3 (124 # 10) = Done p /\
              p == 1 /\ Js.geb p 1 = true.
Proof.
  cbv zeta. do 3 eexists.
  split; [vm_compute; reflexivity |].
  split; [vm_compute; reflexivity |].
  split; [vm_compute; reflexivity |].
  split; [vm_compute; reflexivity |].
  split; [vm_compute; reflexivity |].
  split; [vm_compute; reflexivity |].
  split; [vm_compute; reflexivity |].
  split; [vm_compute; reflexivity |].
  split; [vm_compute; reflexivity |].
  split; [vm_compute; reflexivity |].
  split; [vm_compute; reflexivity |].
  split; [vm_compute; reflexivity |].
  eexists. split; [vm_compute; reflexivity |].
  split; vm_compute; reflexivity.
Qed.

End DoublePrecision.

(** * Further properties of the engine *)

(** ** The wrapped time and the iteration *)

Section WrappedTime.

Context {A : Type}.
Variable loop : SeamlessLoop A.

Lemma quot_shift (x d : Q) (n : Z) :
  ~ d == 0 -> (x + inject_Z n * d) / d == x / d + inject_Z n.
Proof. intro H. field. exact H. Qed.

(** Whole cycles added to an offset leave the wrapped value as it is. *)
Lemma wrap_shift_cycles (d x : Q) (n : Z) :
  0 < d ->
  exists t t',
    GsapUtils.wrap 0 d x = Done t /\
    GsapUtils.wrap 0 d (x + inject_Z n * d) = Done t' /\
    t' == t.
Proof.
  intro Hd.
  destruct (wrap_floor d x Hd) as (t & Et & Qt).
  destruct (wrap_floor d (x + inject_Z n * d) Hd) as (t' & Et' & Qt').
  exists t, t'. repeat split; try assumption.
  rewrite Qt', Qt.
  rewrite (Qfloor_comp _ _ (quot_shift x d n ltac:(lra))).
  rewrite floor_shift, inject_Z_plus. ring.
Qed.

(** The offset [(n + p) * d] of progress [p] in cycle [n] wraps to
    [p * d]. *)
Lemma wrap_of_cycle_progress (d p : Q) (n : Z) :
  0 < d -> 0 <= p -> p < 1 ->
  exists t, GsapUtils.wrap 0 d ((inject_Z n + p) * d) = Done t /\ t == p * d.
Proof.
  intros Hd P0 P1.
  destruct (wrap_floor d ((inject_Z n + p) * d) Hd) as (t & Et & Qt).
  exists t. split; [exact Et |].
  assert (Eq : (inject_Z n + p) * d / d == inject_Z n + p) by (field; lra).
  assert (F : Qfloor ((inject_Z n + p) * d / d) = n).
  { rewrite (Qfloor_comp _ _ Eq). apply floor_unique; lra. }
  rewrite Qt, F. ring.
Qed.

(** X1: [wrapTime] is periodic: an offset and the same offset moved by any
    whole number of loop durations, forward or backward, are sent to the
    same time on the loop. *)
Theorem wrapTime_periodic (offset : Q) (n : Z) :
  0 < duration loop ->
  exists t t',
    wrapTime loop offset = Done t /\
    wrapTime loop (offset + inject_Z n * duration loop) = Done t' /\
    t' == t.
Proof. intro Hd. unfold wrapTime. now apply wrap_shift_cycles. Qed.

(** X2: the time the scrub tween seeks the loop to forgets the iteration:
    when the animated offset is [(n + p) * duration], with [n] whole cycles
    and a progress [p] in [[0, 1)], the loop is sought to [p * duration]. *)
Theorem scrub_onUpdate_forgets_iteration (n : Z) (p : Q) :
  0 < duration loop -> 0 <= p -> p < 1 ->
  exists t,
    scrub_onUpdate loop ((inject_Z n + p) * duration loop) = Done t /\
    t == p * duration loop /\ 0 <= t /\ t < duration loop.
Proof.
  intros Hd P0 P1. unfold scrub_onUpdate, wrapTime.
  destruct (wrap_of_cycle_progress (duration loop) p n Hd P0 P1) as (t & Et & Qt).
  exists t. split; [exact Et |]. split; [exact Qt |].
  exact (wrap_range _ _ _ Hd Et).
Qed.

End WrappedTime.

Lemma wrapTime_periodic_witness :
  0 < duration (seamlessLoop picker_env) /\
  exists t t',
    wrapTime (seamlessLoop picker_env) (7 # 10) = Done t /\
    wrapTime (seamlessLoop picker_env)
      ((7 # 10) + inject_Z (-3) * duration (seamlessLoop picker_env)) = Done t' /\
    t' == t.
Proof.
  split; [concrete |].
  apply (wrapTime_periodic (seamlessLoop picker_env) (7 # 10) (-3)). concrete.
Defined.

Lemma scrub_onUpdate_forgets_iteration_witness :
  (0 < duration (seamlessLoop picker_env) /\ 0 <= 1 # 4 /\ 1 # 4 < 1) /\
  exists t,
    scrub_onUpdate (seamlessLoop picker_env)
      ((inject_Z (-2) + (1 # 4)) * duration (seamlessLoop picker_env)) = Done t /\
    t == (1 # 4) * duration (seamlessLoop picker_env) /\
    0 <= t /\ t < duration (seamlessLoop picker_env).
Proof.
  split; [repeat split; concrete |].
  apply (scrub_onUpdate_forgets_iteration (seamlessLoop picker_env) (-2) (1 # 4));
    concrete.
Defined.

(** ** Re-entrancy of the scroll driver *)

Section Reentrancy.

Context {A : Type}.
Variable env : Env A.

Lemma Qeq_bool_refl (x : Q) : Qeq_bool x x = true.
Proof. apply Qeq_bool_iff. reflexivity. Qed.

(** One step of [onUpdate], the nested runs left folded. *)
Lemma onUpdate_step (k : nat) (st : State) :
  onUpdate (S k) env st
  = if Js.gtb (t_scroll (trigger st)) (t_end (trigger st) - 1) then
      wrap (onUpdate k env) 1 1 st
    else if Js.ltb (t_scroll (trigger st)) 1 && (t_direction (trigger st) <? 0)%Z then
      wrap (onUpdate k env) (-1) (t_end (trigger st) - 1) st
    else Done (scrub_to_progress env st).
Proof. reflexivity. Qed.

(** The scroll driver run on a trigger that [wrap] has just repositioned
    and that has re-derived its progress: at most one more wrap follows,
    and its own [trigger.update()] finds the progress unchanged. *)
Lemma onUpdate_after_reposition (k k' : nat) (st : State) :
  ~ t_end (trigger st) == 0 ->
  t_progress (trigger st) = clip01 (t_scroll (trigger st) / t_end (trigger st)) ->
  t_scroll (trigger st) = 1 \/ t_scroll (trigger st) = t_end (trigger st) - 1 ->
  exists st',
    onUpdate (S k) env st = Done st' /\
    onUpdate (S k') env st = Done st' /\
    t_end (trigger st') = t_end (trigger st) /\
    (iteration st - 1 <= iteration st' <= iteration st + 1)%Z /\
    (2 <= t_end (trigger st) -> iteration st' = iteration st).
Proof.
  intros He Hp Hs. destruct st as [it off rs [sc pr dir e] so].
  cbn [trigger t_scroll t_progress t_end iteration] in *.
  rewrite !onUpdate_step. cbn [trigger t_scroll t_end t_direction].
  destruct Hs as [-> | ->].
  - destruct (Js.gtb 1 (e - 1)) eqn:G.
    + unfold wrap, trigger_update, trigger_scroll, set_trigger, set_iteration.
      cbn [trigger t_scroll t_progress t_end t_direction iteration
           scrub_offset scrub_restarts startOffset].
      rewrite div_nonzero by assumption. cbn [bind].
      rewrite Hp, Qeq_bool_refl.
      eexists. repeat split; cbn [iteration]; try lia.
      intro H2. apply gtb_gt in G. lra.
    + assert (L : Js.ltb 1 1 = false) by reflexivity.
      rewrite L. cbn [andb].
      eexists. repeat split; cbn; lia.
  - rewrite (proj2 (gtb_le (e - 1) (e - 1)) (Qle_refl _)).
    destruct (Js.ltb (e - 1) 1 && (dir <? 0)%Z) eqn:B.
    + unfold wrap, trigger_update, trigger_scroll, set_trigger, set_iteration.
      cbn [trigger t_scroll t_progress t_end t_direction iteration
           scrub_offset scrub_restarts startOffset].
      rewrite div_nonzero by assumption. cbn [bind].
      rewrite Hp, Qeq_bool_refl.
      eexists. repeat split; cbn [iteration]; try lia.
      intro H2. apply andb_true_iff in B. destruct B as [B _].
      apply ltb_lt in B. lra.
    + eexists. repeat split; cbn; lia.
Qed.

(** X5: the re-entrancy between the scroll driver, [wrap] and
    [trigger.update()] always stops: for every state of a trigger whose end
    is not zero, [onUpdate] returns after at most one nested run of itself,
    whatever bound beyond that the re-entrancy is given; the iteration
    moves by at most 2, and by at most 1 when [end >= 2]. *)
Theorem onUpdate_settles_within_one_reentry (fuel : nat) (st : State) :
  ~ t_end (trigger st) == 0 ->
  exists st',
    onUpdate (S (S fuel)) env st = Done st' /\
    onUpdate 2 env st = Done st' /\
    t_end (trigger st') = t_end (trigger st) /\
    (iteration st - 2 <= iteration st' <= iteration st + 2)%Z /\
    (2 <= t_end (trigger st) ->
     (iteration st - 1 <= iteration st' <= iteration st + 1)%Z).
Proof.
  intro He. destruct st as [it off rs [sc pr dir e] so].
  cbn [trigger t_scroll t_progress t_end iteration] in *.
  rewrite !onUpdate_step. cbn [trigger t_scroll t_end t_direction].
  destruct (Js.gtb sc (e - 1)) eqn:G.
  - unfold wrap, trigger_update, trigger_scroll, set_trigger, set_iteration.
    cbn [trigger t_scroll t_progress t_end t_direction iteration
         scrub_offset scrub_restarts startOffset].
    rewrite div_nonzero by assumption. cbn [bind].
    destruct (Qeq_bool (clip01 (1 / e)) pr).
    + eexists. repeat split; cbn [iteration]; lia.
    + cbv iota.
      match goal with
      | |- exists st', onUpdate _ env ?s = _ /\ _ =>
          destruct (onUpdate_after_reposition fuel 0 s) as (st' & E1 & E2 & Ee & Hi & Hi2);
            [exact He | reflexivity | left; reflexivity |]
      end.
      cbn [trigger t_end iteration] in *.
      exists st'.
      split; [exact E1 | split; [exact E2 | split; [exact Ee | split; [lia |]]]].
      intro H2. specialize (Hi2 H2). lia.
  - destruct (Js.ltb sc 1 && (dir <? 0)%Z).
    + unfold wrap, trigger_update, trigger_scroll, set_trigger, set_iteration.
      cbn [trigger t_scroll t_progress t_end t_direction iteration
           scrub_offset scrub_restarts startOffset].
      rewrite div_nonzero by assumption. cbn [bind].
      destruct (Qeq_bool (clip01 ((e - 1) / e)) pr).
      * eexists. repeat split; cbn [iteration]; lia.
      * cbv iota.
        match goal with
        | |- exists st', onUpdate _ env ?s = _ /\ _ =>
            destruct (onUpdate_after_reposition fuel 0 s)
              as (st' & E1 & E2 & Ee & Hi & Hi2);
              [exact He | reflexivity | right; reflexivity |]
        end.
        cbn [trigger t_end iteration] in *.
        exists st'.
        split; [exact E1 | split; [exact E2 | split; [exact Ee | split; [lia |]]]].
        intro H2. specialize (Hi2 H2). lia.
    + eexists. repeat split; cbn; lia.
Qed.

End Reentrancy.

Lemma onUpdate_settles_within_one_reentry_witness :
  ~ t_end (trigger (picker_state (5999 # 2))) == 0 /\
  exists st',
    onUpdate 7 picker_env (picker_state (5999 # 2)) = Done st' /\
    onUpdate 2 picker_env (picker_state (5999 # 2)) = Done st' /\
    t_end (trigger st') = t_end (trigger (picker_state (5999 # 2))) /\
    (iteration (picker_state (5999 # 2)) - 2 <= iteration st'
     <= iteration (picker_state (5999 # 2)) + 2)%Z /\
    (2 <= t_end (trigger (picker_state (5999 # 2))) ->
     (iteration (picker_state (5999 # 2)) - 1 <= iteration st'
      <= iteration (picker_state (5999 # 2)) + 1)%Z).
Proof.
  split; [concrete |].
  apply (onUpdate_settles_within_one_reentry picker_env 5 (picker_state (5999 # 2))).
  concrete.
Defined.

(** ** Scroll events and the tween's target *)

Section ScrollEvents.

Context {A : Type}.
Variable env : Env A.

Lemma quot_lt (a b e : Q) : 0 < e -> a < b -> a / e < b / e.
Proof.
  intros He H. unfold Qdiv. apply Qmult_lt_compat_r; [| exact H].
  now apply Qinv_lt_0_compat.
Qed.

Lemma quot_le (a b e : Q) : 0 < e -> a <= b -> a / e <= b / e.
Proof.
  intros He H. unfold Qdiv. apply Qmult_le_compat_r; [exact H |].
  apply Qlt_le_weak. now apply Qinv_lt_0_compat.
Qed.

(** X6: every scroll event that changes the trigger's progress leaves the
    engine consistent: when it returns, the tween has been restarted once
    and its target is [(iteration + progress) * duration], the trigger's
    progress is [scroll / end] and lies in [[0, 1)], the iteration has
    moved by at most one, and the loop time that target stands for is
    [progress * duration]. *)
Theorem scroll_event_keeps_offset_consistent (fuel : nat) (st : State) :
  0 < duration (seamlessLoop env) ->
  2 <= t_end (trigger st) ->
  0 <= t_scroll (trigger st) -> t_scroll (trigger st) <= t_end (trigger st) ->
  ~ t_progress (trigger st) == t_scroll (trigger st) / t_end (trigger st) ->
  exists st',
    scroll_event (S (S fuel)) env st = Done st' /\
    scrub_offset st'
    = (inject_Z (iteration st') + t_progress (trigger st'))
      * duration (seamlessLoop env) /\
    t_progress (trigger st') = t_scroll (trigger st') / t_end (trigger st') /\
    0 <= t_progress (trigger st') /\ t_progress (trigger st') < 1 /\
    scrub_restarts st' = S (scrub_restarts st) /\
    (iteration st - 1 <= iteration st')%Z /\
    (iteration st' <= iteration st + 1)%Z /\
    exists t,
      scrub_onUpdate (seamlessLoop env) (scrub_offset st') = Done t /\
      t == t_progress (trigger st') * duration (seamlessLoop env).
Proof.
  intros Hd He H0 H1 Hch.
  destruct st as [it off rs [sc pr dir e] so].
  cbn [trigger t_scroll t_progress t_end iteration scrub_restarts] in *.
  assert (P0 : 0 <= sc / e) by (apply Qle_shift_div_l; lra).
  assert (P1 : sc / e <= 1) by (apply Qle_shift_div_r; lra).
  unfold scroll_event, trigger_update.
  cbn [trigger t_scroll t_progress t_end].
  rewrite div_nonzero by lra. cbn [bind].
  rewrite clip01_id by assumption.
  rewrite Qeq_bool_false by (intro C; apply Hch; now symmetry).
  unfold set_trigger.
  cbn [iteration scrub_offset scrub_restarts startOffset].
  set (dir' := if Js.gtb (sc / e) pr then 1%Z else (-1)%Z).
  set (st1 := mkState it off rs (mkTrigger sc (sc / e) dir' e) so).
  rewrite onUpdate_step.
  cbn [st1 trigger t_scroll t_end t_direction].
  destruct (Js.gtb sc (e - 1)) eqn:G.
  - apply gtb_gt in G.
    destruct (wrap_in_zone env fuel 1 1 st1) as (st' & E & Hi & Hsc & Hen & _ & Hor);
      [lra | cbn; lra |].
    cbn [st1 trigger t_end t_progress iteration scrub_restarts] in *.
    destruct Hor as [(C & _) | (_ & O & R & Hp)].
    { exfalso. pose proof (quot_lt 1 sc e ltac:(lra) ltac:(lra)). lra. }
    assert (U : 0 < 1 / e /\ 1 / e < 1) by (apply quot_unit_interval; lra).
    destruct (wrap_of_cycle_progress (duration (seamlessLoop env)) (1 / e)
                (it + 1) Hd ltac:(lra) ltac:(lra)) as (t & Et & Qt).
    exists st'. rewrite Hp, Hsc, Hen, Hi, R, O.
    repeat split; try lra; try lia; try assumption.
    exists t. split; assumption.
  - apply gtb_le in G.
    destruct (Js.ltb sc 1 && (dir' <? 0)%Z) eqn:B.
    + apply andb_true_iff in B. destruct B as [B _]. apply ltb_lt in B.
      destruct (wrap_in_zone env fuel (-1) (e - 1) st1)
        as (st' & E & Hi & Hsc & Hen & _ & Hor); [lra | cbn; lra |].
      cbn [st1 trigger t_end t_progress iteration scrub_restarts] in *.
      destruct Hor as [(C & _) | (_ & O & R & Hp)].
      { exfalso. pose proof (quot_lt sc 1 e ltac:(lra) B).
        pose proof (quot_le 1 (e - 1) e ltac:(lra) ltac:(lra)). lra. }
      assert (U : 0 < (e - 1) / e /\ (e - 1) / e < 1)
        by (apply quot_unit_interval; lra).
      destruct (wrap_of_cycle_progress (duration (seamlessLoop env)) ((e - 1) / e)
                  (it + -1) Hd ltac:(lra) ltac:(lra)) as (t & Et & Qt).
      exists st'. rewrite Hp, Hsc, Hen, Hi, R, O.
      repeat split; try lra; try lia; try assumption.
      exists t. split; assumption.
    + assert (U : sc / e < 1).
      { pose proof (quot_le sc (e - 1) e ltac:(lra) G).
        assert ((e - 1) / e < 1) by (apply Qlt_shift_div_r; lra). lra. }
      destruct (wrap_of_cycle_progress (duration (seamlessLoop env)) (sc / e)
                  it Hd P0 U) as (t & Et & Qt).
      eexists. split; [reflexivity |].
      cbn [scrub_to_progress scrub_restart set_scrub_offset st1 iteration
           scrub_offset scrub_restarts trigger t_progress t_scroll t_end].
      repeat split; try lra; try lia; try assumption.
      exists t. split; assumption.
Qed.

(** X7: a wrap of the scroll driver is nearly seamless.  Handed a trigger
    whose progress is [scroll / end], a forward wrap ([scroll > end - 1])
    moves the iteration up by one, parks the trigger at 1, and aims the
    tween ahead of the offset the scroll position stood for,
    [(iteration + scroll / end) * duration], by at least one and less than
    two scroll units' worth of offset ([duration / end] each); a backward
    wrap ([scroll < 1], [direction < 0]) moves the iteration down by one,
    parks the trigger at [end - 1], and aims the tween behind that offset by
    as much. *)
Theorem scroll_driver_wrap_shifts_by_a_unit_or_two (fuel : nat) (st : State) :
  0 < duration (seamlessLoop env) ->
  2 <= t_end (trigger st) ->
  t_progress (trigger st) == t_scroll (trigger st) / t_end (trigger st) ->
  let unit := duration (seamlessLoop env) / t_end (trigger st) in
  let stood := (inject_Z (iteration st) + t_scroll (trigger st) / t_end (trigger st))
               * duration (seamlessLoop env) in
  (t_end (trigger st) - 1 < t_scroll (trigger st) ->
   t_scroll (trigger st) <= t_end (trigger st) ->
   exists st',
     onUpdate (S (S fuel)) env st = Done st' /\
     iteration st' = (iteration st + 1)%Z /\
     t_scroll (trigger st') = 1 /\
     scrub_restarts st' = S (scrub_restarts st) /\
     unit <= scrub_offset st' - stood /\ scrub_offset st' - stood < 2 * unit) /\
  (0 <= t_scroll (trigger st) -> t_scroll (trigger st) < 1 ->
   (t_direction (trigger st) < 0)%Z ->
   exists st',
     onUpdate (S (S fuel)) env st = Done st' /\
     iteration st' = (iteration st - 1)%Z /\
     t_scroll (trigger st') = t_end (trigger st) - 1 /\
     scrub_restarts st' = S (scrub_restarts st) /\
     - (2 * unit) < scrub_offset st' - stood /\ scrub_offset st' - stood <= - unit).
Proof.
  intros Hd He Hp unit stood.
  assert (Hu : 0 < unit) by (apply Qlt_shift_div_l; lra).
  split.
  - intros G H1. rewrite onUpdate_step, (proj2 (gtb_gt _ _) G).
    destruct (wrap_in_zone env fuel 1 1 st) as (st' & E & Hi & Hsc & _ & _ & Hor);
      [lra | lra |].
    destruct Hor as [(C & _) | (_ & O & R & _)].
    { exfalso.
      pose proof (quot_lt 1 (t_scroll (trigger st)) (t_end (trigger st))
                    ltac:(lra) ltac:(lra)). lra. }
    exists st'. repeat split; try assumption.
    + rewrite O.
      assert (Ed : (inject_Z (iteration st + 1) + 1 / t_end (trigger st))
                   * duration (seamlessLoop env) - stood
                   == unit + (t_end (trigger st) - t_scroll (trigger st)) * unit).
      { unfold stood, unit. rewrite inject_Z_plus. change (inject_Z 1) with 1.
        field. lra. }
      rewrite Ed.
      assert (0 <= (t_end (trigger st) - t_scroll (trigger st)) * unit)
        by (apply Qmult_le_0_compat; lra).
      lra.
    + rewrite O.
      assert (Ed : 2 * unit
                   - ((inject_Z (iteration st + 1) + 1 / t_end (trigger st))
                      * duration (seamlessLoop env) - stood)
                   == (t_scroll (trigger st) - (t_end (trigger st) - 1)) * unit).
      { unfold stood, unit. rewrite inject_Z_plus. change (inject_Z 1) with 1.
        field. lra. }
      assert (0 < (t_scroll (trigger st) - (t_end (trigger st) - 1)) * unit)
        by (apply Qmult_lt_0_compat; lra).
      lra.
  - intros H0 L D. rewrite onUpdate_step.
    rewrite (proj2 (gtb_le _ _)) by lra.
    rewrite (proj2 (ltb_lt _ _) L), (proj2 (Z.ltb_lt _ _) D). cbn [andb].
    destruct (wrap_in_zone env fuel (-1) (t_end (trigger st) - 1) st)
      as (st' & E & Hi & Hsc & _ & _ & Hor); [lra | lra |].
    destruct Hor as [(C & _) | (_ & O & R & _)].
    { exfalso.
      pose proof (quot_lt (t_scroll (trigger st)) 1 (t_end (trigger st))
                    ltac:(lra) L).
      pose proof (quot_le 1 (t_end (trigger st) - 1) (t_end (trigger st))
                    ltac:(lra) ltac:(lra)). lra. }
    exists st'. repeat split; try assumption.
    + rewrite O.
      assert (Ed : (inject_Z (iteration st + -1)
                    + (t_end (trigger st) - 1) / t_end (trigger st))
                   * duration (seamlessLoop env) - stood + 2 * unit
                   == (1 - t_scroll (trigger st)) * unit).
      { unfold stood, unit. rewrite inject_Z_plus. change (inject_Z (-1)) with (-1).
        field. lra. }
      assert (0 < (1 - t_scroll (trigger st)) * unit)
        by (apply Qmult_lt_0_compat; lra).
      lra.
    + rewrite O.
      assert (Ed : - unit
                   - ((inject_Z (iteration st + -1)
                       + (t_end (trigger st) - 1) / t_end (trigger st))
                      * duration (seamlessLoop env) - stood)
                   == t_scroll (trigger st) * unit).
      { unfold stood, unit. rewrite inject_Z_plus. change (inject_Z (-1)) with (-1).
        field. lra. }
      assert (0 <= t_scroll (trigger st) * unit)
        by (apply Qmult_le_0_compat; lra).
      lra.
Qed.

End ScrollEvents.

Lemma scroll_event_keeps_offset_consistent_witness :
  (0 < duration (seamlessLoop picker_env) /\ 2 <= 3000 /\ 0 <= 2999.5 /\
   2999.5 <= 3000 /\ ~ 1 # 2 == 2999.5 / 3000) /\
  exists st',
    scroll_event 2 picker_env
      (mkState 4 0 0 (mkTrigger 2999.5 (1 # 2) 1 3000) None) = Done st' /\
    scrub_offset st'
    = (inject_Z (iteration st') + t_progress (trigger st'))
      * duration (seamlessLoop picker_env) /\
    t_progress (trigger st') = t_scroll (trigger st') / t_end (trigger st') /\
    0 <= t_progress (trigger st') /\ t_progress (trigger st') < 1 /\
    scrub_restarts st' = 1%nat /\
    (4 - 1 <= iteration st')%Z /\
    (iteration st' <= 4 + 1)%Z /\
    exists t,
      scrub_onUpdate (seamlessLoop picker_env) (scrub_offset st') = Done t /\
      t == t_progress (trigger st') * duration (seamlessLoop picker_env).
Proof.
  split; [repeat split; concrete |].
  apply (scroll_event_keeps_offset_consistent picker_env 0
           (mkState 4 0 0 (mkTrigger 2999.5 (1 # 2) 1 3000) None)); concrete.
Defined.

Lemma scroll_driver_wrap_shifts_by_a_unit_or_two_witness :
  (0 < duration (seamlessLoop picker_env) /\ 2 <= 3000) /\
  (exists st',
      onUpdate 2 picker_env (picker_state 2999.5) = Done st' /\
      iteration st' = (0 + 1)%Z /\
      t_scroll (trigger st') = 1 /\
      scrub_restarts st' = 1%nat /\
      duration (seamlessLoop picker_env) / 3000
      <= scrub_offset st'
         - (inject_Z 0 + 2999.5 / 3000) * duration (seamlessLoop picker_env) /\
      scrub_offset st'
      - (inject_Z 0 + 2999.5 / 3000) * duration (seamlessLoop picker_env)
      < 2 * (duration (seamlessLoop picker_env) / 3000)) /\
  (exists st',
      onUpdate 2 picker_env
        (mkState 0 0 0 (mkTrigger (1 # 2) (1 # 6000) (-1) 3000) None) = Done st' /\
      iteration st' = (0 - 1)%Z /\
      t_scroll (trigger st') = 3000 - 1 /\
      scrub_restarts st' = 1%nat /\
      - (2 * (duration (seamlessLoop picker_env) / 3000))
      < scrub_offset st'
        - (inject_Z 0 + (1 # 2) / 3000) * duration (seamlessLoop picker_env) /\
      scrub_offset st'
      - (inject_Z 0 + (1 # 2) / 3000) * duration (seamlessLoop picker_env)
      <= - (duration (seamlessLoop picker_env) / 3000)).
Proof.
  split; [split; concrete |].
  split.
  - apply (proj1 (scroll_driver_wrap_shifts_by_a_unit_or_two picker_env 0
                    (picker_state 2999.5) ltac:(concrete) ltac:(concrete)
                    ltac:(concrete))); concrete.
  - apply (proj2 (scroll_driver_wrap_shifts_by_a_unit_or_two picker_env 0
                    (mkState 0 0 0 (mkTrigger (1 # 2) (1 # 6000) (-1) 3000) None)
                    ltac:(concrete) ltac:(concrete) ltac:(concrete))); concrete.
Defined.

(** ** The three cycles of the raw sequence *)

Section ThreeCycles.

Context {A : Type}.
Variable animate : A -> Anim A.
Variable items : list A.
Variable spacing : Q.




(** The [i]-th entry of the raw sequence. *)
Lemma rawSequence_entry (i : nat) (d : A) :
  (i < 3 * length items)%nat ->
  nth_error (rawSequence (buildSeamlessLoop items spacing animate)) i
  = Some (inject_Z (Z.of_nat i) * spacing,
          animate (nth (i mod length items) items d)).
Proof.
  intro Hi.
  assert (Hraw : rawSequence (buildSeamlessLoop items spacing animate)
                 = fst (place animate items spacing (items ++ items ++ items)
                          0 [] None)).
  { unfold buildSeamlessLoop.
    now destruct (place animate items spacing (items ++ items ++ items) 0 [] None). }
  assert (Hlen : length (items ++ items ++ items) = (3 * length items)%nat)
    by (rewrite !length_app; lia).
  rewrite Hraw, place_raw. cbn [app].
  set (g := fun '(j, item) =>
              (inject_Z (Z.of_nat j) * spacing,
               animate (nth (j mod length items) items item))).
  set (l := combine (seq 0 (length (items ++ items ++ items)))
              (items ++ items ++ items)).
  assert (Hl : length l = (3 * length items)%nat)
    by (unfold l; rewrite length_combine, length_seq, Hlen; lia).
  rewrite (nth_error_nth' (map g l) (g (0%nat, d)))
    by (rewrite length_map, Hl; exact Hi).
  rewrite map_nth. unfold l.
  rewrite combine_nth by (now rewrite length_seq).
  rewrite seq_nth by (rewrite Hlen; exact Hi).
  cbn [Nat.add g]. f_equal. f_equal. f_equal.
  apply nth_indep.
  apply Nat.mod_upper_bound. lia.
Qed.

(** X9: the cycles of the raw sequence repeat each other, which is what
    lets the loop be scrubbed across a cycle's edge: the animation placed
    at index [i + N] is the animation placed at index [i], exactly one
    [cycleDuration] later ([i < 2 * N], [N] the number of items). *)
Theorem rawSequence_repeats_after_one_cycle (i : nat) :
  (i < 2 * length items)%nat ->
  exists t t' a,
    nth_error (rawSequence (buildSeamlessLoop items spacing animate)) i
    = Some (t, a) /\
    nth_error (rawSequence (buildSeamlessLoop items spacing animate))
      (i + length items)
    = Some (t', a) /\
    t' == t + tween_duration (buildSeamlessLoop items spacing animate).
Proof.
  intro Hi.
  assert (Hn : (0 < length items)%nat) by lia.
  destruct items as [| d items'] eqn:Ei; [cbn in Hn; lia |].
  rewrite <- Ei in *.
  assert (Hdur : tween_duration (buildSeamlessLoop items spacing animate)
                 = spacing * inject_Z (Z.of_nat (length items))).
  { unfold buildSeamlessLoop.
    now destruct (place animate items spacing (items ++ items ++ items) 0 [] None). }
  do 3 eexists.
  split; [apply (rawSequence_entry i d); lia |].
  split.
  - rewrite (rawSequence_entry (i + length items) d) by lia.
    f_equal. f_equal. f_equal. f_equal.
    rewrite <- (Nat.Div0.mod_add i 1 (length items)).
    f_equal. lia.
  - rewrite Hdur, Nat2Z.inj_add, inject_Z_plus. ring.
Qed.

End ThreeCycles.

Lemma rawSequence_repeats_after_one_cycle_witness :
  (40 < 2 * length cards)%nat /\
  exists t t' a,
    nth_error (rawSequence (buildSeamlessLoop cards picker_spacing animateFunc)) 40
    = Some (t, a) /\
    nth_error (rawSequence (buildSeamlessLoop cards picker_spacing animateFunc))
      (40 + length cards)
    = Some (t', a) /\
    t' == t + tween_duration (buildSeamlessLoop cards picker_spacing animateFunc).
Proof.
  split; [concrete |].
  apply (rawSequence_repeats_after_one_cycle animateFunc cards picker_spacing 40).
  concrete.
Defined.

(** ** Drags in sequence *)

(** X11: within one drag the tween's target depends on where the pointer
    is, not on the way it came: after a press, moving to [x1] and then to
    [x2] aims the tween where moving to [x2] at once does, and moving back
    to [startX] brings the target back to its value at the press.  Drags
    add up: a second press and drag from [x2] to [x3] leaves the target
    where one drag from [startX] to [x3] would. *)
Theorem drags_compose (startX x1 x2 x3 : Q) (st : State) :
  exists st1 st2 st2' st3 st4,
    onDrag startX x1 (onPress st) = Done st1 /\
    onDrag startX x2 st1 = Done st2 /\
    onDrag startX x2 (onPress st) = Done st2' /\
    scrub_offset st2 = scrub_offset st2' /\
    scrub_offset st2 = scrub_offset st + (startX - x2) * (1 # 1000) /\
    onDrag startX startX st1 = Done st3 /\
    scrub_offset st3 == scrub_offset st /\
    onDrag x2 x3 (onPress st2) = Done st4 /\
    scrub_offset st4 == scrub_offset st + (startX - x3) * (1 # 1000) /\
    iteration st4 = iteration st /\ trigger st4 = trigger st.
Proof.
  unfold onDrag, onPress, set_startOffset, scrub_restart, set_scrub_offset.
  cbn [startOffset scrub_offset].
  do 5 eexists.
  repeat (split; [reflexivity |]).
  cbn [scrub_offset iteration trigger startOffset].
  split; [ring |].
  split; [reflexivity |].
  cbn [scrub_offset iteration trigger].
  split; [ring |]. split; reflexivity.
Qed.
